(** * Youmio seed viewer

    A shallow embedding of the three TypeScript units that carry the
    behaviour of the viewer:

    - [Api]: the browser-side utilities ([fetchStakingPoints] with its
      process-wide [pointsCache], [getPriceValue],
      [calculatePointsPerPrice], [sortListings]);
    - [OpenseaListings]: the edge function that proxies the marketplace
      listings endpoint;
    - [LeaderboardRefresh]: the edge function that refreshes the cached
      leaderboard ([fetchAllNFTs], [fetchListedTokenIds],
      [fetchPointsBatch] and the request handler).

    JavaScript numbers are IEEE 754 doubles, which is what Rocq's
    primitive floats are.  Values that come out of [response.json()]
    untyped are kept as [Value]s; data for which the source declares an
    interface ([NFTItem], [OpenSeaListing], [NFTWithMetadata]) are
    records.  The outside world (HTTP services, clock, arrival order of
    concurrent responses) is an [Env] of oracles indexed by the number of
    calls made so far, so that the same request may be answered
    differently at different times. *)

From Stdlib Require Import ZArith Floats.
From stdpp Require Import gmap strings list fin_maps pretty.

(** ** JavaScript values *)

#[local] Set Warnings "-register-all,-clear-no-such-hyp".

Inductive Value : Type :=
  | VUndefined
  | VNull
  | VBool (b : bool)
  | VNum (n : float)
  | VStr (s : string)
  | VArr (items : list Value)
  | VObj (fields : list (string * Value)).

(** [ToBoolean]: [undefined], [null], [false], [0], [-0], [NaN] and the
    empty string are falsy. *)
Definition truthy (v : Value) : bool :=
  match v with
  | VUndefined | VNull => false
  | VBool b => b
  | VNum n => negb (PrimFloat.eqb n 0 || PrimFloat.is_nan n)
  | VStr s => negb (String.eqb s "")
  | VArr _ | VObj _ => true
  end.

Definition nullish (v : Value) : bool :=
  match v with
  | VUndefined | VNull => true
  | _ => false
  end.

(** [a || b] and [a ?? b]. *)
Definition js_or (a b : Value) : Value := if truthy a then a else b.
Definition js_coalesce (a b : Value) : Value := if nullish a then b else a.

(** Truthiness of a [string | null] and of a [number | undefined]. *)
Definition truthy_string (s : option string) : bool :=
  match s with
  | Some s => negb (String.eqb s "")
  | None => false
  end.

Definition truthy_number (n : option float) : bool :=
  match n with
  | Some n => negb (PrimFloat.eqb n 0 || PrimFloat.is_nan n)
  | None => false
  end.



(** ** Exceptions *)

Inductive Exn : Type :=
  | JsError (message : string)   (* an instance of Error *)
  | JsThrown (v : Value).        (* anything else that was thrown *)

(** [error instanceof Error ? error.message : 'Unknown error'] *)
Definition error_message (e : Exn) : string :=
  match e with
  | JsError m => m
  | JsThrown _ => "Unknown error"
  end.

Inductive Outcome (A : Type) : Type :=
  | Ok (a : A)
  | Throw (e : Exn).
Arguments Ok {A} a.
Arguments Throw {A} e.

(** Own data properties of a parsed JSON value.  Reading a property of
    [null] or [undefined] throws a TypeError; reading a missing one gives
    [undefined].  The source reads no inherited property of such a value
    (its only [.length] feeds a log line). *)
Fixpoint assoc (k : string) (fields : list (string * Value)) : Value :=
  match fields with
  | [] => VUndefined
  | (k', v) :: rest => if String.eqb k k' then v else assoc k rest
  end.

Definition prop (v : Value) (k : string) : Outcome Value :=
  match v with
  | VUndefined =>
      Throw (JsError ("Cannot read properties of undefined (reading '" +:+ k +:+ "')"))
  | VNull =>
      Throw (JsError ("Cannot read properties of null (reading '" +:+ k +:+ "')"))
  | VObj fields => Ok (assoc k fields)
  | _ => Ok VUndefined
  end.

(** ** State and exceptions together

    A computation reads and writes a state and either returns or throws;
    what it wrote before throwing stays written. *)

Definition M (S A : Type) : Type := S → Outcome A * S.

Definition ret {S A} (a : A) : M S A := fun s => (Ok a, s).

Definition bind {S A B} (m : M S A) (k : A → M S B) : M S B :=
  fun s =>
    match m s with
    | (Ok a, s') => k a s'
    | (Throw e, s') => (Throw e, s')
    end.

Definition lift {S A} (o : Outcome A) : M S A := fun s => (o, s).

(** [try { body } catch (e) { handler }] *)
Definition try_catch {S A} (body : M S A) (handler : Exn → M S A) : M S A :=
  fun s =>
    match body s with
    | (Ok a, s') => (Ok a, s')
    | (Throw e, s') => handler e s'
    end.

Declare Scope js_scope.
Delimit Scope js_scope with js.
Notation "x <- m ;; k" := (bind m (fun x => k))
  (at level 100, m at next level, right associativity) : js_scope.
Notation "m ;; k" := (bind m (fun _ => k))
  (at level 100, right associativity) : js_scope.
Open Scope js_scope.

(** ** HTTP *)

Record HttpResponse (B : Type) : Type := {
  status : Z;
  text : Outcome string;  (* response.text(): the body, or a throw *)
  json : Outcome B;       (* response.json(): the parsed body, or a throw *)
}.
Arguments status {B} _.
Arguments text {B} _.
Arguments json {B} _.

(** [response.ok]: the status is in the range 200-299. *)
Definition ok {B} (r : HttpResponse B) : bool :=
  (200 <=? status r)%Z && (status r <=? 299)%Z.

(** Two answers of a service: the request fails on the network, and a
    200 with a body that parses to [data]. *)
Definition offline {B} : Outcome (HttpResponse B) :=
  Throw (JsError "error sending request").

Definition answer {B} (data : B) : Outcome (HttpResponse B) :=
  Ok {| status := 200; text := Ok ""; json := Ok data |}.

(** ** The two tracked collections *)

Inductive NFTType : Type := Mythic | Ancient.

Definition NFTType_name (t : NFTType) : string :=
  match t with
  | Mythic => "Mythic"
  | Ancient => "Ancient"
  end.

(** [Object.entries(COLLECTION_SLUGS)] *)
Definition COLLECTION_SLUGS : list (NFTType * string) :=
  [(Mythic, "mythicseed"); (Ancient, "ancientseed")].

(** ** Marketplace listings, as the interface [OpenSeaListing] declares them *)

Record PriceCurrent : Type := { value : string; currency : string }.
Record Price : Type := { current : option PriceCurrent }.
Record Offer : Type := {
  identifierOrCriteria : string;
  token : string;
  imageUrl : option string;
}.
Record Parameters : Type := { offer : option (list Offer) }.
Record ProtocolData : Type := { parameters : option Parameters }.
Record OpenSeaListing : Type := {
  price : option Price;
  protocol_data : option ProtocolData;
}.

(** [listing.protocol_data?.parameters?.offer?.[0]?.identifierOrCriteria] *)
Definition offered_identifier (listing : OpenSeaListing) : option string :=
  ps ← protocol_data listing;
  os ← parameters ps;
  l ← offer os;
  o ← head l;
  Some (identifierOrCriteria o).

(** ** Responses of the edge functions

    [resp_body] is the value handed to [JSON.stringify], [None] for a
    [null] body; a response built without a status has status 200. *)

Record Response : Type := {
  resp_status : Z;
  resp_headers : list (string * string);
  resp_body : option Value;
}.

Definition corsHeaders : list (string * string) :=
  [("Access-Control-Allow-Origin", "*");
   ("Access-Control-Allow-Headers", "authorization, x-client-info, apikey, content-type")].

Definition json_headers : list (string * string) :=
  corsHeaders ++ [("Content-Type", "application/json")].

(** ** Arrays sorted in place

    [Array.prototype.sort] with a comparator: stable, [b] goes before [a]
    when the comparator is positive on [(a, b)]; a [NaN] counts as [0].
    This is the order of the array for a comparator that is a consistent
    order on its elements.  For one that is not (a price that is [NaN]),
    the order is the engine's own; the elements are the same, which is all
    that is used of a sorted array below. *)
Section Sort.
Context {A : Type} (cmp : A → A → float).

Fixpoint sort_insert (x : A) (l : list A) : list A :=
  match l with
  | [] => [x]
  | y :: l' =>
      if PrimFloat.ltb 0 (cmp x y) then y :: sort_insert x l' else x :: l
  end.

Definition array_sort (l : list A) : list A := foldr sort_insert [] l.
End Sort.

(** ** Slices of a fixed size

    [for (let i = 0; i < a.length; i += size) out.push(a.slice(i, i + size))] *)
Fixpoint slices {A} (fuel size i : nat) (a : list A) : list (list A) :=
  match fuel with
  | 0 => []
  | S fuel =>
      if i <? length a then take size (drop i a) :: slices fuel size (i + size) a
      else []
  end.

Definition chunked {A} (size : nat) (a : list A) : list (list A) :=
  slices (length a) size 0 a.

(** ** utils/api.ts *)

Module Api.

Record NFTWithMetadata : Type := {
  listing : OpenSeaListing;            (* extends OpenSeaListing *)
  tokenId : option string;
  nftType : option NFTType;
  stakingPoints : option float;
  cachedImageUrl : option string;
}.

(** The staking service asked for the [n]-th time, and the runtime's
    [parseFloat]. *)
Record Env : Type := {
  staking : nat → string → NFTType → Outcome (HttpResponse Value);
  parseFloat : string → float;
}.

(** The module's global [pointsCache], and the requests sent so far. *)
Record State : Type := {
  pointsCache : gmap string Value;
  requests : list (string * NFTType);
}.

Definition pointsCache_set (k : string) (v : Value) : M State () :=
  fun st =>
    (Ok (), {| pointsCache := <[k := v]> (pointsCache st);
               requests := requests st |}).

(** [`${nftType}_${tokenId}`] *)
Definition key_of (tokenId : string) (nftType : NFTType) : string :=
  NFTType_name nftType +:+ "_" +:+ tokenId.

(** A call of [fetchStakingPoints] suspends at [await fetch(url)], and
    other calls run before it goes on.  The call up to there: a key that
    is cached is answered at once; else the request is sent and the call
    waits for the answer to that request, the [n]-th. *)
Inductive Started : Type :=
  | Cached (v : Value)
  | Waiting (n : nat).

Definition fetchStakingPoints_start (tokenId : string) (nftType : NFTType)
  : State → Started * State :=
  fun st =>
    match pointsCache st !! key_of tokenId nftType with
    | Some cached => (Cached cached, st)
    | None =>
        (Waiting (length (requests st)),
         {| pointsCache := pointsCache st;
            requests := requests st ++ [(tokenId, nftType)] |})
    end.

(** The rest of the call, run when request [n] has its answer.  It
    touches the state once, with the [pointsCache.set] before its return;
    the second [await], of [response.json()], reads and writes nothing, so
    it needs no step of its own. *)
Definition fetchStakingPoints_resume (env : Env) (n : nat) (tokenId : string)
    (nftType : NFTType) : M State Value :=
  let cacheKey := key_of tokenId nftType in
  try_catch
    (response <- lift (staking env n tokenId nftType) ;;
     if negb (ok response) then
       pointsCache_set cacheKey (VNum 0) ;;
       ret (VNum 0)
     else
       data <- lift (json response) ;;
       data_points <- lift (prop data "points") ;;
       let points := js_or data_points (VNum 0) in
       pointsCache_set cacheKey points ;;
       ret points)
    (fun _ =>
       pointsCache_set cacheKey (VNum 0) ;;
       ret (VNum 0)).

(** A call that runs from its start to its return with no other call in
    between. *)
Definition fetchStakingPoints (env : Env) (tokenId : string) (nftType : NFTType)
  : M State Value :=
  fun st =>
    match fetchStakingPoints_start tokenId nftType st with
    | (Cached cached, st) => (Ok cached, st)
    | (Waiting n, st) => fetchStakingPoints_resume env n tokenId nftType st
    end.

(** Calls that overlap: a schedule is a list of events, a call being
    made or the answer to a request arriving; the calls that wait are
    kept with the request they wait for, and what the calls returned is
    logged.  An answer nobody waits for is no event. *)
Inductive Event : Type :=
  | Calls (tokenId : string) (nftType : NFTType)
  | Responds (n : nat).

Record Running : Type := {
  store : State;
  waiting : gmap nat (string * NFTType);
  returned : list (string * NFTType * Value);
}.

Definition step (env : Env) (r : Running) (ev : Event) : Running :=
  match ev with
  | Calls tokenId nftType =>
      match fetchStakingPoints_start tokenId nftType (store r) with
      | (Cached v, st) =>
          {| store := st;
             waiting := waiting r;
             returned := returned r ++ [(tokenId, nftType, v)] |}
      | (Waiting n, st) =>
          {| store := st;
             waiting := <[n := (tokenId, nftType)]> (waiting r);
             returned := returned r |}
      end
  | Responds n =>
      match waiting r !! n with
      | None => r
      | Some (tokenId, nftType) =>
          match fetchStakingPoints_resume env n tokenId nftType (store r) with
          | (Ok v, st) =>
              {| store := st;
                 waiting := delete n (waiting r);
                 returned := returned r ++ [(tokenId, nftType, v)] |}
          | (Throw _, st) =>
              {| store := st; waiting := delete n (waiting r); returned := returned r |}
          end
      end
  end.

Definition run (env : Env) (events : list Event) (r : Running) : Running :=
  foldl (step env) r events.

(** The [try] of [getPriceValue] guards a property chain that cannot
    throw on a listing of the declared type. *)
Definition getPriceValue (env : Env) (l : OpenSeaListing) : float :=
  match price l ≫= current with
  | Some c =>
      if String.eqb (value c) "" then 0%float
      else (parseFloat env (value c) / 1e18)%float
  | None => 0%float
  end.

Definition calculatePointsPerPrice (env : Env) (l : NFTWithMetadata) : float :=
  let points :=
    if truthy_number (stakingPoints l) then default 0%float (stakingPoints l)
    else 0%float in
  let price := getPriceValue env (listing l) in
  if PrimFloat.eqb price 0 || PrimFloat.eqb points 0 then 0%float
  else (points / price)%float.

(** Arrays live in a heap: [sortListings] receives a reference. *)
Abbreviation Heap := (gmap nat (list NFTWithMetadata)).

(** [[...listings]]: a fresh array with the same elements. *)
Definition spread (listings : nat) (h : Heap) : nat * Heap :=
  let sorted := fresh (dom h) in
  (sorted, <[sorted := default [] (h !! listings)]> h).

(** [a.sort(cmp)] sorts [a] in place and returns [a]. *)
Definition sort_in_place (cmp : NFTWithMetadata → NFTWithMetadata → float)
    (a : nat) (h : Heap) : nat * Heap :=
  (a, alter (array_sort cmp) a h).

Definition sortListings (env : Env) (listings : nat) (sortType : string)
    (h : Heap) : nat * Heap :=
  let '(sorted, h) := spread listings h in
  if String.eqb sortType "bestdeal" then
    sort_in_place
      (fun a b =>
         let ratioA := calculatePointsPerPrice env a in
         let ratioB := calculatePointsPerPrice env b in
         (ratioB - ratioA)%float)
      sorted h
  else if String.eqb sortType "highestprice" then
    sort_in_place
      (fun a b => (getPriceValue env (listing b) - getPriceValue env (listing a))%float)
      sorted h
  else if String.eqb sortType "lowestprice" then
    sort_in_place
      (fun a b => (getPriceValue env (listing a) - getPriceValue env (listing b))%float)
      sorted h
  else (sorted, h).

End Api.

(** ** The edge function opensea-listings *)

Module OpenseaListings.

(** What the handler reads of a request: its method and [req.json()]. *)
Record Request : Type := {
  method : string;
  body : Outcome Value;
}.

(** The marketplace's answer to the listings URL built from a slug, and
    the error with which the runtime's [Response] constructor refuses a
    status (its class and message are the runtime's). *)
Record Env : Type := {
  upstream : Value → Outcome (HttpResponse Value);
  response_error : Z → Exn;
}.

(** The state is the list of slugs asked upstream. *)
Definition fetch (env : Env) (collectionSlug : Value)
  : M (list Value) (HttpResponse Value) :=
  fun asked => (upstream env collectionSlug, asked ++ [collectionSlug]).

(** [const { k } = await ...]: destructuring [null] or [undefined]
    throws a TypeError of its own; any other value has its property read. *)
Definition destructure (v : Value) (k : string) : Outcome Value :=
  match v with
  | VUndefined =>
      Throw (JsError ("Cannot destructure property '" +:+ k +:+
                      "' of '(intermediate value)' as it is undefined."))
  | VNull =>
      Throw (JsError ("Cannot destructure property '" +:+ k +:+
                      "' of '(intermediate value)' as it is null."))
  | _ => prop v k
  end.

(** [new Response(body, { status, headers })] with a body: the
    constructor throws for a status outside 200-599, and for a status
    that allows no body (101, 103, 204, 205, 304). *)
Definition null_body_status (s : Z) : bool :=
  (s =? 101)%Z || (s =? 103)%Z || (s =? 204)%Z || (s =? 205)%Z || (s =? 304)%Z.

Definition refuses_status (s : Z) : bool :=
  (s <? 200)%Z || (599 <? s)%Z || null_body_status s.

Definition new_Response (env : Env) (body : Value) (status : Z)
    (headers : list (string * string)) : Outcome Response :=
  if refuses_status status then Throw (response_error env status)
  else Ok {| resp_status := status; resp_headers := headers; resp_body := Some body |}.

(** The responses with the constant statuses 200, 400 and 500 are
    written as records: the constructor accepts them. *)
Definition handler (env : Env) (req : Request) : M (list Value) Response :=
  if String.eqb (method req) "OPTIONS" then
    ret {| resp_status := 200; resp_headers := corsHeaders; resp_body := None |}
  else
    try_catch
      (parsed <- lift (body req) ;;
       collectionSlug <- lift (destructure parsed "collectionSlug") ;;
       if negb (truthy collectionSlug) then
         ret {| resp_status := 400;
                resp_headers := json_headers;
                resp_body := Some (VObj [("error", VStr "Collection slug is required")]) |}
       else
         response <- fetch env collectionSlug ;;
         if negb (ok response) then
           errorText <- lift (text response) ;;
           lift (new_Response env
                   (VObj
                      [("error", VStr ("OpenSea API error: " +:+ pretty (status response)));
                       ("details", VStr errorText)])
                   (status response) json_headers)
         else
           data <- lift (json response) ;;
           data_listings <- lift (prop data "listings") ;;
           ret {| resp_status := 200;
                  resp_headers := json_headers;
                  resp_body := Some (VObj
                    [("listings", js_or data_listings (VArr []))]) |})
      (fun error =>
         ret {| resp_status := 500;
                resp_headers := json_headers;
                resp_body := Some (VObj [("error", VStr (error_message error))]) |}).

End OpenseaListings.

(** ** The edge function leaderboard-refresh *)

Module LeaderboardRefresh.

Record NFTItem : Type := {
  identifier : string;
  image_url : option string;
  opensea_url : option string;
}.

(** One page of each marketplace endpoint: [data.nfts] or [data.listings],
    and [data.next]. *)
Record NftsPage : Type := {
  nfts : option (list NFTItem);
  nfts_next : option string;
}.

Record ListingsPage : Type := {
  listings : option (list OpenSeaListing);
  listings_next : option string;
}.

(** A row of [leaderboard_entries], unique on (collection_slug,
    token_id), as the upsert sends it: [JSON.stringify] has been applied
    to [points], the one column whose value is not of a declared type. *)
Record Entry : Type := {
  collection_slug : string;
  nft_type : NFTType;
  token_id : string;
  points : Value;
  entry_image_url : option string;
  entry_opensea_url : option string;
  is_listed : bool;
}.

(** The row of [leaderboard_meta], and the columns an upsert carries: a
    column that is left out of the payload keeps its stored value. *)
Record MetaRow : Type := {
  meta_status : string;
  last_started_at : option string;
  last_completed_at : option string;
  last_error : option string;
}.

Record MetaPatch : Type := {
  set_status : string;
  set_last_started_at : option string;
  set_last_completed_at : option string;
  set_last_error : option (option string);
}.

Definition apply_patch (old : option MetaRow) (p : MetaPatch) : MetaRow :=
  {| meta_status := set_status p;
     last_started_at :=
       match set_last_started_at p with
       | Some t => Some t
       | None => old ≫= last_started_at
       end;
     last_completed_at :=
       match set_last_completed_at p with
       | Some t => Some t
       | None => old ≫= last_completed_at
       end;
     last_error :=
       match set_last_error p with
       | Some e => e
       | None => old ≫= last_error
       end |}.

(** Calls made to the outside, in the order they were issued. *)
Inductive Call : Type :=
  | GetNfts (slug : string) (limit : nat) (next : option string)
  | GetListings (slug : string) (next : option string)
  | GetPoints (id : string) (type : NFTType)
  | UpsertEntries (rows : list Entry)
  | UpsertMeta (cache_key : string) (patch : MetaPatch).

(** The outside: what each service answers to the call issued when [n]
    calls have been made, the clock, and the positions at which concurrent
    responses arrive. *)
Record Env : Type := {
  nfts_api : nat → string → option string → Outcome (HttpResponse NftsPage);
  listings_api : nat → string → option string → Outcome (HttpResponse ListingsPage);
  points_api : nat → string → NFTType → Outcome (HttpResponse Value);
  now : nat → string;
  arrival : nat → nat;
}.

(** The two tables, and the calls made so far.  The store applies every
    upsert, last write wins on the conflict key. *)
Record State : Type := {
  calls : list Call;
  leaderboard_entries : gmap (string * string) Entry;
  leaderboard_meta : gmap string MetaRow;
}.

Definition issue (c : Call) (st : State) : State :=
  {| calls := calls st ++ [c];
     leaderboard_entries := leaderboard_entries st;
     leaderboard_meta := leaderboard_meta st |}.

(** [nextCursor = data.next || null] *)
Definition cursor (next : option string) : option string :=
  if truthy_string next then next else None.

(** *** Cursor pagination

    The two paging loops have one shape: they differ in the URL, in the
    page cap and in what they keep of a page. *)
Section Paging.
Context {Page Acc : Type}.
Variable fetch : option string → M State (HttpResponse Page).
Variable maxPages : nat.
Variable collect : Acc → Page → Acc.
Variable next : Page → option string.

Fixpoint paging (fuel pageCount : nat) (nextCursor : option string) (acc : Acc)
    (st : State) : option (Outcome Acc * State) :=
  match fuel with
  | 0 => None
  | S fuel =>
      let pageCount := S pageCount in
      match fetch nextCursor st with
      | (Throw e, st) => Some (Throw e, st)
      | (Ok response, st) =>
          if negb (ok response) then Some (Ok acc, st)
          else
            match json response with
            | Throw e => Some (Throw e, st)
            | Ok data =>
                let acc := collect acc data in
                let nextCursor := cursor (next data) in
                if maxPages <=? pageCount then Some (Ok acc, st)
                else if truthy_string nextCursor
                then paging fuel pageCount nextCursor acc st
                else Some (Ok acc, st)
            end
      end
  end.
End Paging.

Definition fetch_nfts (env : Env) (collectionSlug : string) (limit : nat)
    (nextCursor : option string) : M State (HttpResponse NftsPage) :=
  fun st =>
    (nfts_api env (length (calls st)) collectionSlug nextCursor,
     issue (GetNfts collectionSlug limit nextCursor) st).

Definition fetch_listings (env : Env) (collectionSlug : string)
    (nextCursor : option string) : M State (HttpResponse ListingsPage) :=
  fun st =>
    (listings_api env (length (calls st)) collectionSlug nextCursor,
     issue (GetListings collectionSlug nextCursor) st).

Definition fetchAllNFTs_fuel (fuel : nat) (env : Env) (collectionSlug : string)
    (st : State) : option (Outcome (list NFTItem) * State) :=
  let maxPages := 50 in
  let limit := 200 in
  paging (fetch_nfts env collectionSlug limit) maxPages
    (fun allNFTs data => allNFTs ++ default [] (nfts data))
    nfts_next fuel 0 None [] st.

(** [for (const listing of listings) { ... if (tokenId) listedIds.add(tokenId) }] *)
Definition add_listed (listedIds : gset string) (data : ListingsPage) : gset string :=
  foldl
    (fun ids listing =>
       let tokenId := offered_identifier listing in
       match tokenId with
       | Some id => if truthy_string tokenId then ids ∪ {[id]} else ids
       | None => ids
       end)
    listedIds (default [] (listings data)).

Definition fetchListedTokenIds_fuel (fuel : nat) (env : Env) (collectionSlug : string)
    (st : State) : option (Outcome (gset string) * State) :=
  let maxPages := 20 in
  paging (fetch_listings env collectionSlug) maxPages add_listed listings_next
    fuel 0 None ∅ st.

(** The loops as functions: the page cap is fuel enough
    ([fetchAllNFTs_fuel_enough] and [fetchListedTokenIds_fuel_enough]
    below), so the fallback is never taken. *)
Definition fetchAllNFTs (env : Env) (collectionSlug : string) : M State (list NFTItem) :=
  fun st =>
    default (Throw (JsError "out of fuel"), st) (fetchAllNFTs_fuel 50 env collectionSlug st).

Definition fetchListedTokenIds (env : Env) (collectionSlug : string) : M State (gset string) :=
  fun st =>
    default (Throw (JsError "out of fuel"), st) (fetchListedTokenIds_fuel 20 env collectionSlug st).

(** *** Points, ten lookups at a time *)

(** The body of one lookup: the value it assigns to [pointsById[tokenId]]. *)
Definition lookup_value (res : Outcome (HttpResponse Value)) : Value :=
  match res with
  | Throw _ => VNum 0
  | Ok res =>
      if ok res then
        match json res with
        | Throw _ => VNum 0
        | Ok data =>
            match prop data "points", prop data "totalPoints", prop data "stakingPoints" with
            | Ok p, Ok t, Ok s => js_coalesce p (js_coalesce t (js_coalesce s (VNum 0)))
            | _, _, _ => VNum 0
            end
        end
      else VNum 0
  end.

(** The order in which the lookups of a chunk settle: each one is put at
    a position the environment picks among those that settled already. *)
Definition insert_at {A} (p : nat) (x : A) (l : list A) : list A :=
  take p l ++ x :: drop p l.

Fixpoint settle {A} (pos : nat → nat) (n : nat) (l : list A) : list A :=
  match l with
  | [] => []
  | x :: l' =>
      let r := settle pos (S n) l' in
      insert_at (pos n mod S (length r)) x r
  end.

(** [pointsById] is a plain object, [{}]: besides its own properties
    it has a prototype, at first [Object.prototype].  The key [__proto__]
    is an accessor of [Object.prototype]: assigning to it stores nothing
    but sets the prototype when the value is an object, an array or
    [null], and does nothing for any other value. *)
Inductive Prototype : Type :=
  | ObjectPrototype
  | NoPrototype                                      (* null *)
  | ParsedObject (fields : list (string * Value))    (* an object of a response body *)
  | ParsedArray (items : list Value).                (* an array of a response body *)

Record PlainObject : Type := {
  own : gmap string Value;
  prototype : Prototype;
}.

(** [{}] *)
Definition empty_object : PlainObject := {| own := ∅; prototype := ObjectPrototype |}.

Definition has_key (k : string) (fields : list (string * Value)) : bool :=
  bool_decide (k ∈ fields.*1).

(** The names of the functions of [Object.prototype] and of
    [Array.prototype] (ECMAScript 2023). *)
Definition Object_prototype : list string :=
  ["constructor"; "hasOwnProperty"; "isPrototypeOf"; "propertyIsEnumerable";
   "toLocaleString"; "toString"; "valueOf";
   "__defineGetter__"; "__defineSetter__"; "__lookupGetter__"; "__lookupSetter__"].

Definition Array_prototype : list string :=
  ["constructor"; "at"; "concat"; "copyWithin"; "entries"; "every"; "fill"; "filter";
   "find"; "findIndex"; "findLast"; "findLastIndex"; "flat"; "flatMap"; "forEach";
   "includes"; "indexOf"; "join"; "keys"; "lastIndexOf"; "map"; "pop"; "push";
   "reduce"; "reduceRight"; "reverse"; "shift"; "slice"; "some"; "sort"; "splice";
   "toLocaleString"; "toReversed"; "toSorted"; "toSpliced"; "toString"; "unshift";
   "values"; "with"].

(** The own properties of an array: its elements, under their indices
    written in decimal, and [length]. *)
Definition array_own (items : list Value) (k : string) : option Value :=
  if String.eqb k "length"
  then Some (VNum (PrimFloat.of_uint63 (Uint63.of_Z (Z.of_nat (length items)))))
  else head (omap (λ iv : nat * Value, if String.eqb (pretty iv.1) k then Some iv.2 else None)
               (imap pair items)).

(** [pointsById[k] = v].  The assignment makes [k] an own property,
    unless [k] is [__proto__] and the lookup of that key ends at the
    accessor of [Object.prototype]: that is, unless the object has an own
    property of that name already, or inherits one from a parsed object
    set as its prototype before. *)
Definition reaches_setter (o : PlainObject) : bool :=
  match own o !! "__proto__" with
  | Some _ => false
  | None =>
      match prototype o with
      | ObjectPrototype => true
      | NoPrototype => false
      | ParsedObject fields => negb (has_key "__proto__" fields)
      | ParsedArray _ => true
      end
  end.

Definition set_prototype (o : PlainObject) (v : Value) : PlainObject :=
  match v with
  | VObj fields => {| own := own o; prototype := ParsedObject fields |}
  | VArr items => {| own := own o; prototype := ParsedArray items |}
  | VNull => {| own := own o; prototype := NoPrototype |}
  | _ => o
  end.

Definition assign (pointsById : PlainObject) (kv : string * Value) : PlainObject :=
  if String.eqb kv.1 "__proto__" && reaches_setter pointsById
  then set_prototype pointsById kv.2
  else {| own := <[kv.1 := kv.2]> (own pointsById); prototype := prototype pointsById |}.

(** [pointsById[k]]: an own property, or one found along the
    prototypes.  What is found there can be a value of a response body,
    [Object.prototype] itself (under [__proto__]) or a built-in function. *)
Inductive Read : Type :=
  | Data (v : Value)
  | TheObjectPrototype
  | BuiltinFunction.

Definition Object_prototype_get (p : Prototype) (k : string) : Read :=
  if String.eqb k "__proto__" then
    match p with
    | ObjectPrototype => TheObjectPrototype
    | NoPrototype => Data VNull
    | ParsedObject fields => Data (VObj fields)
    | ParsedArray items => Data (VArr items)
    end
  else if bool_decide (k ∈ Object_prototype) then BuiltinFunction
  else Data VUndefined.

Definition get (o : PlainObject) (k : string) : Read :=
  match own o !! k with
  | Some v => Data v
  | None =>
      match prototype o with
      | ObjectPrototype => Object_prototype_get ObjectPrototype k
      | NoPrototype => Data VUndefined
      | ParsedObject fields =>
          if has_key k fields then Data (assoc k fields)
          else Object_prototype_get (ParsedObject fields) k
      | ParsedArray items =>
          match array_own items k with
          | Some v => Data v
          | None =>
              if bool_decide (k ∈ Array_prototype) then BuiltinFunction
              else Object_prototype_get (ParsedArray items) k
          end
      end
  end.

(** [r ?? b] *)
Definition coalesce (r : Read) (b : Value) : Read :=
  match r with
  | Data v => if nullish v then Data b else r
  | _ => r
  end.

(** What [JSON.stringify] sends of a property: [Object.prototype] has
    no enumerable property and is sent as [{}]; a function is left out,
    as [undefined] is. *)
Definition stringified (r : Read) : Value :=
  match r with
  | Data v => v
  | TheObjectPrototype => VObj []
  | BuiltinFunction => VUndefined
  end.

(** [await Promise.all(chunk.map(async (tokenId) => { ... }))]: the
    requests go out in the order of the chunk, the assignments happen in
    the order the responses arrive. *)
Definition fetch_chunk (env : Env) (nftType : NFTType) (chunk : list string)
    (pointsById : PlainObject) : M State PlainObject :=
  fun st =>
    let n := length (calls st) in
    let results :=
      imap (fun i tokenId => (tokenId, lookup_value (points_api env (n + i) tokenId nftType)))
        chunk in
    (Ok (foldl assign pointsById (settle (arrival env) n results)),
     {| calls := calls st ++ map (fun tokenId => GetPoints tokenId nftType) chunk;
        leaderboard_entries := leaderboard_entries st;
        leaderboard_meta := leaderboard_meta st |}).

(** [for (const x of xs) acc = await f(x, acc)] *)
Fixpoint for_each {S A B} (f : A → B → M S B) (xs : list A) (acc : B) : M S B :=
  match xs with
  | [] => ret acc
  | x :: xs => acc <- f x acc ;; for_each f xs acc
  end.

Definition fetchPointsBatch (env : Env) (tokenIds : list string) (nftType : NFTType)
  : M State PlainObject :=
  let concurrency := 10 in
  let chunks := chunked concurrency tokenIds in
  for_each (fetch_chunk env nftType) chunks empty_object.

(** *** The store *)

Definition cacheKey : string := "leaderboard_v1".

Definition upsert_row (t : gmap (string * string) Entry) (r : Entry)
  : gmap (string * string) Entry :=
  <[(collection_slug r, token_id r) := r]> t.

(** [supabase.from('leaderboard_entries').upsert(rows, { onConflict:
    'collection_slug,token_id' })]; the source only logs an error. *)
Definition upsert_entries (rows : list Entry) : M State () :=
  fun st =>
    (Ok (),
     {| calls := calls st ++ [UpsertEntries rows];
        leaderboard_entries := foldl upsert_row (leaderboard_entries st) rows;
        leaderboard_meta := leaderboard_meta st |}).

(** [supabase.from('leaderboard_meta').upsert(patch, { onConflict: 'cache_key' })] *)
Definition upsert_meta (patch : MetaPatch) : M State () :=
  fun st =>
    (Ok (),
     {| calls := calls st ++ [UpsertMeta cacheKey patch];
        leaderboard_entries := leaderboard_entries st;
        leaderboard_meta :=
          <[cacheKey := apply_patch (leaderboard_meta st !! cacheKey) patch]>
            (leaderboard_meta st) |}).

(** [new Date().toISOString()] *)
Definition date_now (env : Env) : M State string :=
  fun st => (Ok (now env (length (calls st))), st).

(** *** The job *)

Definition entry_of (collectionSlug : string) (nftType : NFTType)
    (pointsById : PlainObject) (listedIds : gset string) (nft : NFTItem) : Entry :=
  {| collection_slug := collectionSlug;
     nft_type := nftType;
     token_id := identifier nft;
     points := stringified (coalesce (get pointsById (identifier nft)) (VNum 0));
     entry_image_url := image_url nft;
     entry_opensea_url := opensea_url nft;
     is_listed := bool_decide (identifier nft ∈ listedIds) |}.

(** The body of the loop over [Object.entries(COLLECTION_SLUGS)]. *)
Definition refresh_collection (env : Env) (c : NFTType * string) : M State () :=
  let '(nftType, collectionSlug) := c in
  nfts <- fetchAllNFTs env collectionSlug ;;
  listedIds <- fetchListedTokenIds env collectionSlug ;;
  let tokenIds :=
    List.filter (fun id => truthy (VStr id)) (map identifier nfts) in
  pointsById <- fetchPointsBatch env tokenIds nftType ;;
  let batchSize := 100 in
  for_each
    (fun batch _ =>
       let rows := map (entry_of collectionSlug nftType pointsById listedIds) batch in
       upsert_entries rows)
    (chunked batchSize nfts) ().

Definition refresh_all (env : Env) : M State () :=
  for_each (fun c _ => refresh_collection env c) COLLECTION_SLUGS ().

Definition running (t : string) : MetaPatch :=
  {| set_status := "running";
     set_last_started_at := Some t;
     set_last_completed_at := None;
     set_last_error := None |}.

Definition completed (t : string) : MetaPatch :=
  {| set_status := "idle";
     set_last_started_at := None;
     set_last_completed_at := Some t;
     set_last_error := Some None |}.

Definition failed (message : string) : MetaPatch :=
  {| set_status := "error";
     set_last_started_at := None;
     set_last_completed_at := None;
     set_last_error := Some (Some message) |}.

Definition success_response : Response :=
  {| resp_status := 200;
     resp_headers := json_headers;
     resp_body := Some (VObj [("success", VBool true)]) |}.

Definition failure_response : Response :=
  {| resp_status := 500;
     resp_headers := json_headers;
     resp_body := Some (VObj [("error", VStr "Refresh failed")]) |}.

(** The request handler, from the point where the store client exists. *)
Definition handler (env : Env) (method : string) : M State Response :=
  if String.eqb method "OPTIONS" then
    ret {| resp_status := 200; resp_headers := corsHeaders; resp_body := None |}
  else
    started <- date_now env ;;
    upsert_meta (running started) ;;
    try_catch
      (refresh_all env ;;
       finished <- date_now env ;;
       upsert_meta (completed finished) ;;
       ret success_response)
      (fun error =>
         upsert_meta (failed (error_message error)) ;;
         ret failure_response).

End LeaderboardRefresh.

(** * Properties *)

(** ** The monad *)

Lemma bind_ok {S A B} (m : M S A) (k : A → M S B) s a s' :
  m s = (Ok a, s') → bind m k s = k a s'.
Proof. intros H. unfold bind. by rewrite H. Qed.

Lemma bind_throw {S A B} (m : M S A) (k : A → M S B) s e s' :
  m s = (Throw e, s') → bind m k s = (Throw e, s').
Proof. intros H. unfold bind. by rewrite H. Qed.

(** ** Sorting rearranges *)

Lemma sort_insert_perm {A} (cmp : A → A → float) x l :
  sort_insert cmp x l ≡ₚ x :: l.
Proof.
  induction l as [|y l IH]; simpl; [done|].
  destruct (PrimFloat.ltb 0 (cmp x y)); [|done].
  rewrite IH. apply Permutation_swap.
Qed.

Lemma array_sort_perm {A} (cmp : A → A → float) l : array_sort cmp l ≡ₚ l.
Proof.
  induction l as [|x l IH]; simpl; [done|].
  by rewrite sort_insert_perm, IH.
Qed.

Module ApiFacts.
Import Api.

(** A lookup that finds its key in the cache answers from it and touches
    nothing. *)
Lemma fetchStakingPoints_hit env tokenId nftType st v :
  pointsCache st !! key_of tokenId nftType = Some v →
  fetchStakingPoints env tokenId nftType st = (Ok v, st).
Proof. intros H. unfold fetchStakingPoints, fetchStakingPoints_start. by rewrite H. Qed.


(** What the rest of a call does: it returns a value and stores it
    under its key; nothing else changes. *)
Lemma fetchStakingPoints_resume_spec env n tokenId nftType st :
  ∃ v,
    fetchStakingPoints_resume env n tokenId nftType st =
      (Ok v, {| pointsCache := <[key_of tokenId nftType := v]> (pointsCache st);
                requests := requests st |}).
Proof.
  unfold fetchStakingPoints_resume, try_catch, bind, lift, pointsCache_set, ret; simpl.
  destruct (staking env n tokenId nftType) as [response|e]; simpl; [|by eexists].
  destruct (ok response); simpl; [|by eexists].
  destruct (json response) as [data|e]; simpl; [|by eexists].
  destruct (prop data "points") as [p|e]; simpl; by eexists.
Qed.


(** *** Two calls that overlap *)

Definition env_changing : Env :=
  {| staking := λ n _ _, answer (VObj [("points", VNum (if n =? 0 then 5 else 9))]);
     parseFloat := λ _, 0%float |}.



(** Lookups never drop what the cache holds, so the value of the first
    lookup is also the value of any later one. *)
Lemma fetchStakingPoints_keeps env tokenId nftType st k v :
  pointsCache st !! k = Some v →
  pointsCache (fetchStakingPoints env tokenId nftType st).2 !! k = Some v.
Proof.
  intros Hk. unfold fetchStakingPoints, fetchStakingPoints_start.
  destruct (pointsCache st !! key_of tokenId nftType) as [c|] eqn:Hc; [done|].
  assert (key_of tokenId nftType ≠ k) as Hne by congruence.
  unfold fetchStakingPoints_resume, try_catch, bind, lift, pointsCache_set, ret; simpl.
  destruct (staking env _ tokenId nftType) as [response|e]; simpl.
  - destruct (ok response); simpl.
    + destruct (json response) as [data|e]; simpl.
      * destruct (prop data "points") as [p|e]; simpl; by rewrite lookup_insert_ne.
      * by rewrite lookup_insert_ne.
    + by rewrite lookup_insert_ne.
  - by rewrite lookup_insert_ne.
Qed.

(** The heap after [sortListings]: one more array, nothing else touched. *)
Lemma sort_in_place_spec cmp a h l :
  h !! a = Some l →
  (sort_in_place cmp a h).1 = a ∧
  (sort_in_place cmp a h).2 !! a = Some (array_sort cmp l) ∧
  ∀ b, b ≠ a → (sort_in_place cmp a h).2 !! b = h !! b.
Proof.
  intros H. unfold sort_in_place; simpl. split; [done|]. split.
  - by rewrite lookup_alter_eq, H.
  - intros b Hb. by rewrite lookup_alter_ne.
Qed.

(** C10: [sortListings] returns a reference to a new array that holds
    the elements of the input array, each as many times, and leaves the
    input array, like every other array of the heap, as it was. *)
Theorem sortListings_permutation env listings sortType (h : Heap) l :
  h !! listings = Some l →
  let sorted := (sortListings env listings sortType h).1 in
  let h' := (sortListings env listings sortType h).2 in
  h !! sorted = None ∧
  sorted ≠ listings ∧
  (∃ l', h' !! sorted = Some l' ∧ l' ≡ₚ l) ∧
  ∀ a, a ≠ sorted → h' !! a = h !! a.
Proof.
  intros Hl.
  assert (h !! fresh (dom h) = None) as Hfresh.
  { apply not_elem_of_dom. apply is_fresh. }
  assert (fresh (dom h) ≠ listings) as Hne by congruence.
  assert (<[fresh (dom h) := l]> h !! fresh (dom h) = Some l) as Hnew
    by apply lookup_insert_eq.
  unfold sortListings, spread. rewrite Hl. simpl.
  repeat match goal with
  | |- context [if ?b then _ else _] => destruct b
  end;
  first
    [ match goal with
      | |- context [sort_in_place ?cmp _ _] =>
          destruct (sort_in_place_spec cmp _ _ _ Hnew) as (-> & Hs & Hframe)
      end;
      split; [done|]; split; [done|]; split;
      [ eexists; split; [exact Hs|apply array_sort_perm]
      | intros a Ha; rewrite (Hframe a Ha); by apply lookup_insert_ne ]
    | simpl; split; [done|]; split; [done|]; split;
      [ by exists l
      | intros a Ha; by apply lookup_insert_ne ] ].
Qed.

(** *** A heap with one array of two priced listings *)

Definition priced (wei : string) : NFTWithMetadata :=
  {| listing :=
       {| price := Some {| current := Some {| value := wei; currency := "ETH" |} |};
          protocol_data := None |};
     tokenId := None;
     nftType := None;
     stakingPoints := None;
     cachedImageUrl := None |}.

Definition env_prices : Env :=
  {| staking := λ _ _ _, offline;
     parseFloat := λ s, if String.eqb s "2000000000000000000" then 2e18%float else 1e18%float |}.

Definition two_listings : Heap :=
  {[ 0 := [priced "2000000000000000000"; priced "1000000000000000000"] ]}.

Example sortListings_two :
  (sortListings env_prices 0 "lowestprice" two_listings).2 !! 0 =
    Some [priced "2000000000000000000"; priced "1000000000000000000"] ∧
  (sortListings env_prices 0 "lowestprice" two_listings).2
    !! (sortListings env_prices 0 "lowestprice" two_listings).1 =
    Some [priced "1000000000000000000"; priced "2000000000000000000"].
Proof. split; vm_compute; reflexivity. Qed.

Lemma sortListings_permutation_witness :
  two_listings !! 0 =
    Some [priced "2000000000000000000"; priced "1000000000000000000"] ∧
  (sortListings env_prices 0 "lowestprice" two_listings).1 ≠ 0 ∧
  ∃ l',
    (sortListings env_prices 0 "lowestprice" two_listings).2
      !! (sortListings env_prices 0 "lowestprice" two_listings).1 = Some l' ∧
    l' ≡ₚ [priced "2000000000000000000"; priced "1000000000000000000"].
Proof.
  assert (two_listings !! 0 =
            Some [priced "2000000000000000000"; priced "1000000000000000000"]) as H
    by reflexivity.
  split; [exact H|].
  destruct (sortListings_permutation env_prices 0 "lowestprice" two_listings _ H)
    as (_ & Hnew & Hperm & _).
  split; [exact Hnew|exact Hperm].
Defined.

End ApiFacts.

Module ListingsFacts.
Import OpenseaListings.




Definition internal_error (error : Exn) : Response :=
  {| resp_status := 500;
     resp_headers := json_headers;
     resp_body := Some (VObj [("error", VStr (error_message error))]) |}.


Lemma destructure_ok v k x : destructure v k = Ok x → prop v k = Ok x.
Proof. by destruct v. Qed.

(** The handler answers every request. *)
Lemma handler_total env req asked :
  ∃ response asked', handler env req asked = (Ok response, asked').
Proof.
  unfold handler. destruct (String.eqb (method req) "OPTIONS"); [by eexists _, _|].
  unfold try_catch, bind, lift, fetch, ret.
  destruct (body req) as [parsed|e]; [|by eexists _, _].
  destruct (destructure parsed "collectionSlug") as [slug|e]; [|by eexists _, _].
  destruct (truthy slug); simpl; [|by eexists _, _].
  destruct (upstream env slug) as [response|e]; [|by eexists _, _].
  destruct (ok response); simpl.
  - destruct (json response) as [data|e]; [|by eexists _, _].
    destruct (prop data "listings") as [listings|e]; by eexists _, _.
  - destruct (text response) as [errorText|e]; [|by eexists _, _].
    unfold new_Response. destruct (refuses_status (status response)); by eexists _, _.
Qed.

(** What is thrown on the way is answered with a 500 that carries the
    message: a body that does not parse or is [null], a request to the
    marketplace that fails, a marketplace body that does not parse. *)
Lemma handler_body_throws env req asked error :
  method req ≠ "OPTIONS" → body req = Throw error →
  handler env req asked = (Ok (internal_error error), asked).
Proof.
  intros Hm Hb. unfold handler.
  destruct (String.eqb_spec (method req) "OPTIONS") as [|_]; [done|].
  unfold try_catch, bind, lift. by rewrite Hb.
Qed.

Lemma handler_body_null env req asked :
  method req ≠ "OPTIONS" → body req = Ok VNull →
  handler env req asked =
    (Ok (internal_error
           (JsError "Cannot destructure property 'collectionSlug' of '(intermediate value)' as it is null.")),
     asked).
Proof.
  intros Hm Hb. unfold handler.
  destruct (String.eqb_spec (method req) "OPTIONS") as [|_]; [done|].
  unfold try_catch, bind, lift. by rewrite Hb.
Qed.


(** *** Four requests *)

Definition post (parsed : Value) : Request :=
  {| method := "POST"; body := Ok parsed |}.

(** A runtime whose [Response] constructor throws with these messages. *)
Definition marketplace (answers : Value → Outcome (HttpResponse Value)) : Env :=
  {| upstream := answers;
     response_error := λ s,
       if null_body_status s
       then JsError "Response with null body status cannot have body"
       else JsError ("The status provided (" +:+ pretty s +:+ ") is outside the range [200, 599]") |}.




Example handler_null_body :
  handler (marketplace (λ _, offline)) (post VNull) [] =
    (Ok (internal_error
           (JsError "Cannot destructure property 'collectionSlug' of '(intermediate value)' as it is null.")),
     []).
Proof. reflexivity. Qed.



End ListingsFacts.

Module RefreshFacts.
Import LeaderboardRefresh.

(** ** Cursor pagination *)

Lemma cursor_falsy next : truthy_string (cursor next) = false → cursor next = None.
Proof. unfold cursor. by destruct (truthy_string next) eqn:E; [rewrite E|]. Qed.

Section PagingFacts.
Context {Page Acc : Type}.
Variable api : nat → option string → Outcome (HttpResponse Page).
Variable mk : option string → Call.
Variable maxPages : nat.
Variable collect : Acc → Page → Acc.
Variable next : Page → option string.

(** The request of one page: the [n]-th call gets the answer [api n]. *)
Definition fetch_page (c : option string) : M State (HttpResponse Page) :=
  fun st => (api (length (calls st)) c, issue (mk c) st).

(** The cursor a page hands on: none when the request throws, when the
    response is not ok, when its body does not parse, and when the body
    has no [next] (or an empty one). *)
Definition page_cursor (o : Outcome (HttpResponse Page)) : option string :=
  match o with
  | Ok r =>
      if ok r then
        match json r with
        | Ok data => cursor (next data)
        | Throw _ => None
        end
      else None
  | Throw _ => None
  end.

(** [followed t k cs]: starting at time [t] with [k] pages fetched
    before, the requests with the cursors [cs] are those of a walk that
    goes on exactly while the page just read hands on a cursor and fewer
    than [maxPages] pages have been fetched. *)
Inductive followed : nat → nat → list (option string) → Prop :=
  | last_page t k c :
      page_cursor (api t c) = None ∨ maxPages ≤ S k →
      followed t k [c]
  | next_page t k c c' cs :
      page_cursor (api t c) = c' →
      truthy_string c' = true →
      S k < maxPages →
      followed (S t) (S k) (c' :: cs) →
      followed t k (c :: c' :: cs).

(** What the pages requested with [cs] from time [t] on add up to: the
    accumulated items, up to the first response that is not ok, or the
    throw of a request or of a body. *)
Fixpoint gathered (t : nat) (acc : Acc) (cs : list (option string)) : Outcome Acc :=
  match cs with
  | [] => Ok acc
  | c :: cs =>
      match api t c with
      | Throw e => Throw e
      | Ok r =>
          if ok r then
            match json r with
            | Throw e => Throw e
            | Ok data => gathered (S t) (collect acc data) cs
            end
          else Ok acc
      end
  end.


Lemma paging_spec fuel k c acc st :
  maxPages - k ≤ fuel → 0 < fuel →
  ∃ cs,
    followed (length (calls st)) k (c :: cs) ∧
    paging fetch_page maxPages collect next fuel k c acc st =
      Some (gathered (length (calls st)) acc (c :: cs),
            {| calls := calls st ++ map mk (c :: cs);
               leaderboard_entries := leaderboard_entries st;
               leaderboard_meta := leaderboard_meta st |}).
Proof.
  revert k c acc st.
  induction fuel as [|fuel IH]; intros k c acc st Hfuel Hpos; [lia|].
  simpl. unfold fetch_page at 1.
  destruct (api (length (calls st)) c) as [r|e] eqn:Hapi.
  2:{ exists []. split; [|done]. apply last_page. left. by rewrite Hapi. }
  destruct (ok r) eqn:Hok; simpl.
  2:{ exists []. split; [|done]. apply last_page. left. by rewrite Hapi; simpl; rewrite Hok. }
  destruct (json r) as [data|e] eqn:Hjson.
  2:{ exists []. split; [|done]. apply last_page. left.
      by rewrite Hapi; simpl; rewrite Hok, Hjson. }
  assert (page_cursor (api (length (calls st)) c) = cursor (next data)) as Hcur.
  { by rewrite Hapi; simpl; rewrite Hok, Hjson. }
  destruct (maxPages <=? S k) eqn:Hcap.
  { exists []. split; [|done]. apply last_page. right. by apply Nat.leb_le. }
  apply Nat.leb_gt in Hcap.
  destruct (truthy_string (cursor (next data))) eqn:Htruthy.
  2:{ exists []. split; [|done]. apply last_page. left.
      rewrite Hcur. by apply cursor_falsy. }
  destruct (IH (S k) (cursor (next data)) (collect acc data) (issue (mk c) st))
    as (cs & Hwalk & Hrun); [lia|lia|].
  exists (cursor (next data) :: cs). split.
  - apply next_page; [done|done|done|].
    replace (S (length (calls st))) with (length (calls (issue (mk c) st))); [done|].
    simpl. rewrite length_app. simpl. lia.
  - etrans; [exact Hrun|]. simpl. rewrite length_app, Nat.add_1_r. simpl.
    by rewrite <- app_assoc.
Qed.

Lemma paging_more_fuel fuel fuel' k c acc st r :
  paging fetch_page maxPages collect next fuel k c acc st = Some r →
  fuel ≤ fuel' →
  paging fetch_page maxPages collect next fuel' k c acc st = Some r.
Proof.
  revert fuel' k c acc st.
  induction fuel as [|fuel IH]; intros fuel' k c acc st Hrun Hle; [done|].
  destruct fuel' as [|fuel']; [lia|].
  simpl in *. unfold fetch_page in *.
  destruct (api (length (calls st)) c) as [response|e]; [|done].
  destruct (negb (ok response)); [done|].
  destruct (json response) as [data|e]; [|done].
  destruct (maxPages <=? S k); [done|].
  destruct (truthy_string (cursor (next data))); [|done].
  apply IH; [done|lia].
Qed.

End PagingFacts.

(** The two loops are instances; fifty, respectively twenty, units of
    fuel are enough, and more change nothing. *)
Lemma fetchAllNFTs_run env collectionSlug st :
  ∃ cursors,
    followed (λ n c, nfts_api env n collectionSlug c) 50 nfts_next
      (length (calls st)) 0 (None :: cursors) ∧
    ∀ fuel, 50 ≤ fuel →
      fetchAllNFTs_fuel fuel env collectionSlug st =
        Some (gathered (λ n c, nfts_api env n collectionSlug c)
                (λ allNFTs data, allNFTs ++ default [] (nfts data))
                (length (calls st)) [] (None :: cursors),
              {| calls := calls st ++ map (GetNfts collectionSlug 200) (None :: cursors);
                 leaderboard_entries := leaderboard_entries st;
                 leaderboard_meta := leaderboard_meta st |}).
Proof.
  destruct (paging_spec (λ n c, nfts_api env n collectionSlug c) (GetNfts collectionSlug 200)
              50 (λ allNFTs data, allNFTs ++ default [] (nfts data)) nfts_next
              50 0 None [] st) as (cs & Hwalk & Hrun); [lia|lia|].
  exists cs. split; [done|]. intros fuel Hfuel.
  exact (paging_more_fuel _ _ _ _ _ _ _ _ _ _ _ _ Hrun Hfuel).
Qed.

Lemma fetchListedTokenIds_run env collectionSlug st :
  ∃ cursors,
    followed (λ n c, listings_api env n collectionSlug c) 20 listings_next
      (length (calls st)) 0 (None :: cursors) ∧
    ∀ fuel, 20 ≤ fuel →
      fetchListedTokenIds_fuel fuel env collectionSlug st =
        Some (gathered (λ n c, listings_api env n collectionSlug c) add_listed
                (length (calls st)) ∅ (None :: cursors),
              {| calls := calls st ++ map (GetListings collectionSlug) (None :: cursors);
                 leaderboard_entries := leaderboard_entries st;
                 leaderboard_meta := leaderboard_meta st |}).
Proof.
  destruct (paging_spec (λ n c, listings_api env n collectionSlug c) (GetListings collectionSlug)
              20 add_listed listings_next 20 0 None ∅ st) as (cs & Hwalk & Hrun); [lia|lia|].
  exists cs. split; [done|]. intros fuel Hfuel.
  exact (paging_more_fuel _ _ _ _ _ _ _ _ _ _ _ _ Hrun Hfuel).
Qed.

Lemma fetchAllNFTs_fuel_enough env collectionSlug st fuel :
  50 ≤ fuel →
  fetchAllNFTs_fuel fuel env collectionSlug st = Some (fetchAllNFTs env collectionSlug st).
Proof.
  intros Hfuel. destruct (fetchAllNFTs_run env collectionSlug st) as (cs & _ & Hrun).
  unfold fetchAllNFTs. by rewrite (Hrun 50), (Hrun fuel).
Qed.

Lemma fetchListedTokenIds_fuel_enough env collectionSlug st fuel :
  20 ≤ fuel →
  fetchListedTokenIds_fuel fuel env collectionSlug st =
    Some (fetchListedTokenIds env collectionSlug st).
Proof.
  intros Hfuel. destruct (fetchListedTokenIds_run env collectionSlug st) as (cs & _ & Hrun).
  unfold fetchListedTokenIds. by rewrite (Hrun 20), (Hrun fuel).
Qed.


(** ** Slices *)

Lemma slices_concat {A} fuel size i (a : list A) :
  0 < size → length a - i ≤ fuel → concat (slices fuel size i a) = drop i a.
Proof.
  intros Hsize. revert i.
  induction fuel as [|fuel IH]; intros i Hfuel; simpl.
  - symmetry. apply drop_ge. lia.
  - destruct (i <? length a) eqn:Hi.
    + apply Nat.ltb_lt in Hi. simpl. rewrite IH by lia.
      rewrite <- drop_drop. apply take_drop.
    + apply Nat.ltb_ge in Hi. symmetry. by apply drop_ge.
Qed.

Lemma chunked_concat {A} size (a : list A) : 0 < size → concat (chunked size a) = a.
Proof. intros Hsize. unfold chunked. rewrite slices_concat by lia. done. Qed.

(** ** Points *)

Lemma insert_at_perm {A} p (x : A) l : insert_at p x l ≡ₚ x :: l.
Proof.
  unfold insert_at. rewrite <- Permutation_middle. by rewrite take_drop.
Qed.

Lemma settle_perm {A} pos n (l : list A) : settle pos n l ≡ₚ l.
Proof.
  revert n. induction l as [|x l IH]; intros n; simpl; [done|].
  by rewrite insert_at_perm, IH.
Qed.

(** Every order of arrival is one the environment can pick. *)
Lemma settle_ext {A} pos pos' n (l : list A) :
  (∀ k, n ≤ k → pos k = pos' k) → settle pos n l = settle pos' n l.
Proof.
  revert n. induction l as [|x l IH]; intros n Hpos; simpl; [done|].
  rewrite (IH (S n)) by (intros k Hk; apply Hpos; lia).
  by rewrite (Hpos n) by lia.
Qed.

Lemma settle_any {A} n (l l' : list A) : l ≡ₚ l' → ∃ pos, settle pos n l = l'.
Proof.
  revert n l'. induction l as [|x l IH]; intros n l' Hperm.
  - symmetry in Hperm. apply Permutation_nil_r in Hperm as ->. by exists (λ _, 0).
  - assert (x ∈ l') as Hin by (rewrite <- Hperm; left).
    apply list_elem_of_split in Hin as (l1 & l2 & ->).
    apply Permutation_cons_app_inv in Hperm.
    destruct (IH (S n) (l1 ++ l2) Hperm) as (pos0 & Hpos0).
    exists (λ k, if decide (k = n) then length l1 else pos0 k). cbn [settle].
    rewrite (settle_ext _ pos0 (S n)); [|intros k Hk; case_decide; [lia|done]].
    rewrite Hpos0. case_decide; [|done].
    rewrite Nat.mod_small by (rewrite length_app; lia).
    unfold insert_at. by rewrite take_app_length, drop_app_length.
Qed.

(** An assignment stores the value under its key, or else the key is
    [__proto__] and the own properties are left as they are. *)
Lemma assign_spec (o : PlainObject) k v :
  (own (assign o (k, v)) = <[k := v]> (own o) ∧
   prototype (assign o (k, v)) = prototype o) ∨
  (k = "__proto__" ∧ own (assign o (k, v)) = own o).
Proof.
  unfold assign; simpl. destruct (String.eqb_spec k "__proto__") as [->|Hk]; simpl.
  - destruct (reaches_setter o); [right|left; done].
    split; [done|]. by destruct v.
  - by left.
Qed.

(** How a plain object grows when the values of the keys [ids] are
    assigned to it, [value i k] being the value of the [i]-th of them. *)
Definition grown (ids : list string) (value : nat → string → Value)
    (m m' : PlainObject) : Prop :=
  dom (own m') ⊆ dom (own m) ∪ list_to_set ids ∧
  dom (own m) ⊆ dom (own m') ∧
  (∀ k, k ∈ ids → k ≠ "__proto__" → k ∈ dom (own m')) ∧
  (∀ k v, own m' !! k = Some v →
     own m !! k = Some v ∨ ∃ i, ids !! i = Some k ∧ v = value i k) ∧
  ("__proto__" ∉ ids → prototype m' = prototype m).

Lemma foldl_assign_dom (m : PlainObject) ws :
  dom (own (foldl assign m ws)) ⊆ dom (own m) ∪ list_to_set ws.*1 ∧
  dom (own m) ⊆ dom (own (foldl assign m ws)) ∧
  (∀ k, k ∈ ws.*1 → k ≠ "__proto__" → k ∈ dom (own (foldl assign m ws))).
Proof.
  revert m. induction ws as [|[k v] ws IH]; intros m; simpl.
  { split; [set_solver|]. split; [done|]. intros k Hk. by apply elem_of_nil in Hk. }
  destruct (IH (assign m (k, v))) as (Hup & Hlow & Hin).
  destruct (assign_spec m k v) as [[Hown _]|[-> Hown]]; rewrite Hown in *.
  - rewrite dom_insert_L in *. split; [set_solver|]. split; [set_solver|].
    intros k' Hk' Hne. apply elem_of_cons in Hk' as [->|Hk']; [set_solver|by apply Hin].
  - split; [set_solver|]. split; [done|].
    intros k' Hk' Hne. apply elem_of_cons in Hk' as [->|Hk']; [done|by apply Hin].
Qed.

Lemma foldl_assign_lookup (m : PlainObject) ws k v :
  own (foldl assign m ws) !! k = Some v → own m !! k = Some v ∨ (k, v) ∈ ws.
Proof.
  revert m. induction ws as [|[k' v'] ws IH]; intros m; simpl; [by left|].
  intros H. apply IH in H as [H|H]; [|right; by right].
  destruct (assign_spec m k' v') as [[Hown _]|[-> Hown]]; rewrite Hown in H; [|by left].
  destruct (decide (k' = k)) as [->|Hne].
  - rewrite lookup_insert_eq in H. injection H as ->. right. by left.
  - rewrite lookup_insert_ne in H by done. by left.
Qed.

Lemma foldl_assign_prototype (m : PlainObject) ws :
  "__proto__" ∉ ws.*1 → prototype (foldl assign m ws) = prototype m.
Proof.
  revert m. induction ws as [|[k v] ws IH]; intros m Hno; simpl; [done|].
  simpl in Hno. apply not_elem_of_cons in Hno as [Hk Hno].
  rewrite IH by done.
  destruct (assign_spec m k v) as [[_ Hp]|[-> _]]; done.
Qed.

Lemma imap_keys {A B} (f : nat → A → B) (l : list A) :
  (imap (λ i x, (x, f i x)) l).*1 = l.
Proof.
  revert f. induction l as [|x l IH]; intros f; simpl; [done|].
  f_equal. apply (IH (f ∘ S)).
Qed.

Lemma fetch_chunk_spec env nftType chunk m st :
  ∃ m',
    fetch_chunk env nftType chunk m st =
      (Ok m', {| calls := calls st ++ map (λ tokenId, GetPoints tokenId nftType) chunk;
                 leaderboard_entries := leaderboard_entries st;
                 leaderboard_meta := leaderboard_meta st |}) ∧
    grown chunk
      (λ i k, lookup_value (points_api env (length (calls st) + i) k nftType)) m m'.
Proof.
  eexists. split; [reflexivity|].
  assert (∀ k, k ∈ (settle (arrival env) (length (calls st))
                      (imap (λ i tokenId,
                         (tokenId,
                          lookup_value (points_api env (length (calls st) + i) tokenId nftType)))
                         chunk)).*1 ↔ k ∈ chunk) as Hkeys.
  { intros k. rewrite (settle_perm (arrival env) (length (calls st))).
    by rewrite imap_keys. }
  match goal with |- grown _ _ _ (foldl assign m ?ws) =>
    destruct (foldl_assign_dom m ws) as (Hup & Hlow & Hin) end.
  split; [|split; [done|split; [|split]]].
  - intros k Hk. apply Hup in Hk. apply elem_of_union in Hk as [Hk|Hk]; [set_solver|].
    apply elem_of_list_to_set, Hkeys in Hk. set_solver.
  - intros k Hk Hne. apply Hin; [|done]. by apply Hkeys.
  - intros k v H. apply foldl_assign_lookup in H as [H|H]; [by left|right].
    rewrite (settle_perm (arrival env) (length (calls st))) in H.
    apply elem_of_lookup_imap in H as (i & tokenId & Heq & Hi).
    injection Heq as -> ->. by exists i.
  - intros Hno. apply foldl_assign_prototype. by rewrite Hkeys.
Qed.

Lemma fetch_chunks_spec env nftType chunks m st :
  ∃ m',
    for_each (fetch_chunk env nftType) chunks m st =
      (Ok m', {| calls := calls st ++ map (λ tokenId, GetPoints tokenId nftType) (concat chunks);
                 leaderboard_entries := leaderboard_entries st;
                 leaderboard_meta := leaderboard_meta st |}) ∧
    grown (concat chunks)
      (λ i k, lookup_value (points_api env (length (calls st) + i) k nftType)) m m'.
Proof.
  revert m st. induction chunks as [|chunk chunks IH]; intros m st; simpl.
  - exists m. split.
    + unfold ret. rewrite app_nil_r. by destruct st.
    + split; [set_solver|]. split; [done|]. split; [|split; [|done]].
      * intros k Hk. by apply elem_of_nil in Hk.
      * intros k v H. by left.
  - destruct (fetch_chunk_spec env nftType chunk m st)
      as (m1 & Hrun1 & Hup1 & Hlow1 & Hin1 & Hval1 & Hp1).
    rewrite (bind_ok _ _ _ _ _ Hrun1).
    match goal with |- context [for_each _ _ m1 ?s] =>
      destruct (IH m1 s) as (m2 & Hrun2 & Hup2 & Hlow2 & Hin2 & Hval2 & Hp2) end.
    exists m2. split; [|split; [|split; [|split; [|split]]]].
    + rewrite Hrun2. simpl. by rewrite map_app, app_assoc.
    + rewrite list_to_set_app_L. set_solver.
    + set_solver.
    + intros k Hk Hne. apply elem_of_app in Hk as [Hk|Hk]; [|by apply Hin2].
      apply Hlow2. by apply Hin1.
    + intros k v H. apply Hval2 in H as [H|(i & Hi & ->)].
      * apply Hval1 in H as [H|(i & Hi & ->)]; [by left|right].
        exists i. split; [|done]. by apply lookup_app_l_Some.
      * right. exists (length chunk + i). split.
        -- rewrite lookup_app_r by lia. by replace (length chunk + i - length chunk) with i by lia.
        -- simpl. rewrite length_app, length_map. f_equal. f_equal. lia.
    + intros Hno. rewrite Hp2, Hp1; [done| |]; intros Hin; apply Hno;
        apply elem_of_app; [by left|by right].
Qed.



(** On an ok response with a body, the first of [points], [totalPoints]
    and [stakingPoints] that is neither [null] nor missing, else 0. *)
Lemma lookup_value_ok res fields :
  ok res = true → json res = Ok (VObj fields) →
  lookup_value (Ok res) =
    js_coalesce (assoc "points" fields)
      (js_coalesce (assoc "totalPoints" fields)
         (js_coalesce (assoc "stakingPoints" fields) (VNum 0))).
Proof. intros Hok Hjson. unfold lookup_value. by rewrite Hok, Hjson. Qed.

Lemma fetchPointsBatch_spec env tokenIds nftType st :
  ∃ pointsById,
    fetchPointsBatch env tokenIds nftType st =
      (Ok pointsById,
       {| calls := calls st ++ map (λ tokenId, GetPoints tokenId nftType) tokenIds;
          leaderboard_entries := leaderboard_entries st;
          leaderboard_meta := leaderboard_meta st |}) ∧
    dom (own pointsById) ⊆ list_to_set tokenIds ∧
    (∀ tokenId, tokenId ∈ tokenIds → tokenId ≠ "__proto__" →
       tokenId ∈ dom (own pointsById)) ∧
    (∀ tokenId v, own pointsById !! tokenId = Some v →
       ∃ i, tokenIds !! i = Some tokenId ∧
            v = lookup_value (points_api env (length (calls st) + i) tokenId nftType)) ∧
    ("__proto__" ∉ tokenIds → prototype pointsById = ObjectPrototype).
Proof.
  unfold fetchPointsBatch.
  destruct (fetch_chunks_spec env nftType (chunked 10 tokenIds) empty_object st)
    as (m & Hrun & Hup & _ & Hin & Hval & Hp).
  rewrite chunked_concat in * by lia.
  exists m. split; [done|]. split; [|split; [done|split; [|done]]].
  - simpl in Hup. set_solver.
  - intros k v H. by apply Hval in H as [H|H].
Qed.


(** *** A staking service that answers with a negative number *)

Definition empty_store : State :=
  {| calls := []; leaderboard_entries := ∅; leaderboard_meta := ∅ |}.

Definition env_negative : Env :=
  {| nfts_api := λ _ _ _, offline;
     listings_api := λ _ _ _, offline;
     points_api := λ _ _ _, answer (VObj [("points", VNum (-3))]);
     now := λ _, "2025-01-01T00:00:00.000Z";
     arrival := λ _, 0 |}.


(** The key [__proto__] gets no entry: the number is dropped, and the
    row of such a token is sent with [Object.prototype] for its points. *)
Example fetchPointsBatch_proto_key :
  fetchPointsBatch env_negative ["__proto__"] Mythic empty_store =
    (Ok empty_object,
     {| calls := [GetPoints "__proto__" Mythic];
        leaderboard_entries := ∅;
        leaderboard_meta := ∅ |}) ∧
  points (entry_of "mythicseed" Mythic empty_object ∅
            {| identifier := "__proto__"; image_url := None; opensea_url := None |}) =
    VObj [].
Proof. split; reflexivity. Qed.

(** ** The job and the store *)

Lemma fetchAllNFTs_frame env collectionSlug st :
  leaderboard_entries (fetchAllNFTs env collectionSlug st).2 = leaderboard_entries st ∧
  leaderboard_meta (fetchAllNFTs env collectionSlug st).2 = leaderboard_meta st.
Proof.
  destruct (fetchAllNFTs_run env collectionSlug st) as (cs & _ & Hrun).
  unfold fetchAllNFTs. by rewrite (Hrun 50).
Qed.

Lemma fetchListedTokenIds_frame env collectionSlug st :
  leaderboard_entries (fetchListedTokenIds env collectionSlug st).2 = leaderboard_entries st ∧
  leaderboard_meta (fetchListedTokenIds env collectionSlug st).2 = leaderboard_meta st.
Proof.
  destruct (fetchListedTokenIds_run env collectionSlug st) as (cs & _ & Hrun).
  unfold fetchListedTokenIds. by rewrite (Hrun 20).
Qed.

(** Upserting batch after batch writes the rows of all batches, in order. *)
Lemma upsert_batches_spec {A} (row : A → Entry) batches st :
  for_each (λ batch _, upsert_entries (map row batch)) batches () st =
    (Ok (),
     {| calls := calls st ++ map (λ batch, UpsertEntries (map row batch)) batches;
        leaderboard_entries :=
          foldl upsert_row (leaderboard_entries st) (map row (concat batches));
        leaderboard_meta := leaderboard_meta st |}).
Proof.
  revert st. induction batches as [|batch batches IH]; intros st; simpl.
  - unfold ret. rewrite app_nil_r. by destruct st.
  - unfold bind, upsert_entries at 1. rewrite IH. simpl.
    by rewrite map_app, foldl_app, <- app_assoc.
Qed.

(** A collection whose two fetches return is written whole, in batches
    of 100. *)
Lemma refresh_collection_ok env nftType collectionSlug st nfts st1 listedIds st2 :
  fetchAllNFTs env collectionSlug st = (Ok nfts, st1) →
  fetchListedTokenIds env collectionSlug st1 = (Ok listedIds, st2) →
  ∃ pointsById st3,
    fetchPointsBatch env
      (List.filter (λ id, truthy (VStr id)) (map identifier nfts)) nftType st2 =
      (Ok pointsById, st3) ∧
    refresh_collection env (nftType, collectionSlug) st =
      (Ok (),
       {| calls :=
            calls st3 ++
            map (λ batch,
                   UpsertEntries
                     (map (entry_of collectionSlug nftType pointsById listedIds) batch))
              (chunked 100 nfts);
          leaderboard_entries :=
            foldl upsert_row (leaderboard_entries st)
              (map (entry_of collectionSlug nftType pointsById listedIds) nfts);
          leaderboard_meta := leaderboard_meta st |}).
Proof.
  intros H1 H2.
  destruct (fetchPointsBatch_spec env
              (List.filter (λ id, truthy (VStr id)) (map identifier nfts)) nftType st2)
    as (pointsById & H3 & _).
  eexists pointsById, _. split; [exact H3|].
  unfold refresh_collection.
  rewrite (bind_ok _ _ _ _ _ H1), (bind_ok _ _ _ _ _ H2), (bind_ok _ _ _ _ _ H3).
  rewrite upsert_batches_spec. simpl.
  rewrite chunked_concat by lia.
  pose proof (fetchAllNFTs_frame env collectionSlug st) as [Fe1 Fm1].
  pose proof (fetchListedTokenIds_frame env collectionSlug st1) as [Fe2 Fm2].
  rewrite H1 in Fe1, Fm1. rewrite H2 in Fe2, Fm2. simpl in *.
  by rewrite Fe2, Fe1, Fm2, Fm1.
Qed.

(** A collection that throws has written nothing. *)
Lemma refresh_collection_throw env c st error st' :
  refresh_collection env c st = (Throw error, st') →
  leaderboard_entries st' = leaderboard_entries st ∧
  leaderboard_meta st' = leaderboard_meta st.
Proof.
  destruct c as [nftType collectionSlug].
  pose proof (fetchAllNFTs_frame env collectionSlug st) as [Fe1 Fm1].
  destruct (fetchAllNFTs env collectionSlug st) as [[nfts|e1] st1] eqn:H1.
  2:{ unfold refresh_collection. rewrite (bind_throw _ _ _ _ _ H1).
      intros [= <- <-]. done. }
  pose proof (fetchListedTokenIds_frame env collectionSlug st1) as [Fe2 Fm2].
  destruct (fetchListedTokenIds env collectionSlug st1) as [[listedIds|e2] st2] eqn:H2.
  2:{ unfold refresh_collection.
      rewrite (bind_ok _ _ _ _ _ H1), (bind_throw _ _ _ _ _ H2).
      intros [= <- <-]. simpl in *. by rewrite Fe2, Fm2. }
  destruct (refresh_collection_ok env nftType collectionSlug st nfts st1 listedIds st2 H1 H2)
    as (pointsById & st3 & _ & ->).
  done.
Qed.

(** The job never writes the status row itself. *)
Lemma refresh_collection_meta env c st :
  leaderboard_meta (refresh_collection env c st).2 = leaderboard_meta st.
Proof.
  destruct (refresh_collection env c st) as [[[]|e] st'] eqn:Hrun.
  2:{ by apply refresh_collection_throw in Hrun as [_ ?]. }
  destruct c as [nftType collectionSlug].
  pose proof (fetchAllNFTs_frame env collectionSlug st) as [Fe1 Fm1].
  destruct (fetchAllNFTs env collectionSlug st) as [[nfts|e1] st1] eqn:H1.
  2:{ unfold refresh_collection in Hrun. by rewrite (bind_throw _ _ _ _ _ H1) in Hrun. }
  destruct (fetchListedTokenIds env collectionSlug st1) as [[listedIds|e2] st2] eqn:H2.
  2:{ unfold refresh_collection in Hrun.
      by rewrite (bind_ok _ _ _ _ _ H1), (bind_throw _ _ _ _ _ H2) in Hrun. }
  destruct (refresh_collection_ok env nftType collectionSlug st nfts st1 listedIds st2 H1 H2)
    as (pointsById & st3 & _ & Heq).
  rewrite Heq in Hrun. by injection Hrun as <-.
Qed.

Lemma refresh_all_unfold env st :
  refresh_all env st =
    match refresh_collection env (Mythic, "mythicseed") st with
    | (Ok _, st1) =>
        match refresh_collection env (Ancient, "ancientseed") st1 with
        | (Ok _, st2) => (Ok (), st2)
        | (Throw error, st2) => (Throw error, st2)
        end
    | (Throw error, st1) => (Throw error, st1)
    end.
Proof.
  unfold refresh_all, COLLECTION_SLUGS. cbn [for_each]. unfold bind, ret.
  destruct (refresh_collection env (Mythic, "mythicseed") st) as [[[]|e1] st1]; [|done].
  by destruct (refresh_collection env (Ancient, "ancientseed") st1) as [[[]|e2] st2].
Qed.

Lemma refresh_all_meta env st :
  leaderboard_meta (refresh_all env st).2 = leaderboard_meta st.
Proof.
  rewrite refresh_all_unfold.
  pose proof (refresh_collection_meta env (Mythic, "mythicseed") st) as F1.
  destruct (refresh_collection env (Mythic, "mythicseed") st) as [[[]|e1] st1]; [|done].
  pose proof (refresh_collection_meta env (Ancient, "ancientseed") st1) as F2.
  destruct (refresh_collection env (Ancient, "ancientseed") st1) as [[[]|e2] st2];
    simpl in *; congruence.
Qed.

(** The handler, case by case. *)
Lemma handler_options env st :
  handler env "OPTIONS" st =
    (Ok {| resp_status := 200; resp_headers := corsHeaders; resp_body := None |}, st).
Proof. done. Qed.

Lemma handler_run env method st :
  method ≠ "OPTIONS" →
  let st1 := (upsert_meta (running (now env (length (calls st)))) st).2 in
  handler env method st =
    match refresh_all env st1 with
    | (Ok _, st2) =>
        (Ok success_response,
         (upsert_meta (completed (now env (length (calls st2)))) st2).2)
    | (Throw error, st2) =>
        (Ok failure_response, (upsert_meta (failed (error_message error)) st2).2)
    end.
Proof.
  intros Hm. unfold handler.
  destruct (String.eqb_spec method "OPTIONS") as [|_]; [done|].
  unfold bind, try_catch, date_now; simpl.
  by destruct (refresh_all env _) as [[[]|e] st2].
Qed.

Lemma refresh_collection_written env nftType collectionSlug st st' :
  refresh_collection env (nftType, collectionSlug) st = (Ok (), st') →
  ∃ nfts pointsById listedIds,
    leaderboard_entries st' =
      foldl upsert_row (leaderboard_entries st)
        (map (entry_of collectionSlug nftType pointsById listedIds) nfts).
Proof.
  intros Hrun.
  destruct (fetchAllNFTs env collectionSlug st) as [[nfts|e1] st1] eqn:H1.
  2:{ unfold refresh_collection in Hrun. by rewrite (bind_throw _ _ _ _ _ H1) in Hrun. }
  destruct (fetchListedTokenIds env collectionSlug st1) as [[listedIds|e2] st2] eqn:H2.
  2:{ unfold refresh_collection in Hrun.
      by rewrite (bind_ok _ _ _ _ _ H1), (bind_throw _ _ _ _ _ H2) in Hrun. }
  destruct (refresh_collection_ok env nftType collectionSlug st nfts st1 listedIds st2 H1 H2)
    as (pointsById & st3 & _ & Heq).
  rewrite Heq in Hrun. injection Hrun as <-.
  by exists nfts, pointsById, listedIds.
Qed.

(** C3: the handler returns a response whatever happens.  When every
    collection completes it answers with success and the status row is
    idle, with the completion time and no error; when the processing
    throws it answers 500 and the status row is in error: [last_error] is
    the message of the error that was thrown, and "Unknown error" when
    what was thrown is not an [Error]. *)
Theorem handler_always_responds env method st :
  ∃ response st',
    handler env method st = (Ok response, st') ∧
    (method ≠ "OPTIONS" →
     match refresh_all env (upsert_meta (running (now env (length (calls st)))) st).2 with
     | (Ok _, st2) =>
         response = success_response ∧
         ∃ row,
           leaderboard_meta st' !! cacheKey = Some row ∧
           meta_status row = "idle" ∧
           last_completed_at row = Some (now env (length (calls st2))) ∧
           last_error row = None
     | (Throw error, st2) =>
         response = failure_response ∧
         resp_status response = 500%Z ∧
         ∃ row,
           leaderboard_meta st' !! cacheKey = Some row ∧
           meta_status row = "error" ∧
           last_error row = Some (error_message error) ∧
           (∀ message, error = JsError message → last_error row = Some message) ∧
           (∀ thrown, error = JsThrown thrown → last_error row = Some "Unknown error")
     end).
Proof.
  destruct (decide (method = "OPTIONS")) as [->|Hm].
  { rewrite handler_options. eexists _, _. split; [done|]. by intros []. }
  rewrite (handler_run env method st Hm).
  destruct (refresh_all env _) as [[[]|error] st2];
    eexists _, _; (split; [reflexivity|]); intros _.
  - split; [done|]. eexists. split; [apply lookup_insert_eq|]. done.
  - split; [done|]. split; [done|]. eexists. split; [apply lookup_insert_eq|].
    simpl. split; [done|]. split; [done|]. split; by intros ? ->.
Qed.

(** What the three responses of the handler tell apart. *)
Lemma handler_response_cases env method st :
  (method = "OPTIONS" ∧ handler env method st =
     (Ok {| resp_status := 200; resp_headers := corsHeaders; resp_body := None |}, st)) ∨
  (method ≠ "OPTIONS" ∧
   ∃ st2, (refresh_all env (upsert_meta (running (now env (length (calls st)))) st).2).2 = st2 ∧
     ((handler env method st =
         (Ok success_response, (upsert_meta (completed (now env (length (calls st2)))) st2).2)) ∨
      (∃ error, handler env method st =
         (Ok failure_response, (upsert_meta (failed (error_message error)) st2).2)))).
Proof.
  destruct (decide (method = "OPTIONS")) as [->|Hm]; [left; by rewrite handler_options|].
  right. split; [done|]. rewrite (handler_run env method st Hm).
  destruct (refresh_all env _) as [[[]|error] st2]; exists st2; (split; [done|]).
  - by left.
  - right. by exists error.
Qed.

(** The completion time the status row shows. *)
Definition completion (st : State) : option string :=
  leaderboard_meta st !! cacheKey ≫= last_completed_at.

(** The response says the run completed. *)
Definition succeeded (o : Outcome Response) : bool :=
  match o with
  | Ok r =>
      (resp_status r =? 200)%Z &&
      match resp_body r with
      | Some _ => true
      | None => false
      end
  | Throw _ => false
  end.

(** One request after the other, and the state the last successful run
    among them left, if any. *)
Fixpoint serve (env : Env) (methods : list string) (st : State) : State :=
  match methods with
  | [] => st
  | m :: ms => serve env ms (handler env m st).2
  end.

Fixpoint last_success (env : Env) (methods : list string) (st : State) : option State :=
  match methods with
  | [] => None
  | m :: ms =>
      match last_success env ms (handler env m st).2 with
      | Some s => Some s
      | None =>
          if succeeded (handler env m st).1 then Some (handler env m st).2 else None
      end
  end.

Lemma handler_updates env method st :
  ((handler env method st).1 = Ok failure_response →
     ∃ patch message,
       last (calls (handler env method st).2) = Some (UpsertMeta cacheKey patch) ∧
       set_status patch = "error" ∧
       set_last_error patch = Some (Some message) ∧
       set_last_completed_at patch = None ∧
       set_last_started_at patch = None ∧
       leaderboard_meta (handler env method st).2 !! cacheKey ≫= last_error = Some message ∧
       completion (handler env method st).2 = completion st) ∧
  ((handler env method st).1 = Ok success_response →
     ∃ patch t,
       last (calls (handler env method st).2) = Some (UpsertMeta cacheKey patch) ∧
       set_status patch = "idle" ∧
       set_last_error patch = Some None ∧
       set_last_completed_at patch = Some t ∧
       leaderboard_meta (handler env method st).2 !! cacheKey ≫= last_error = None ∧
       completion (handler env method st).2 = Some t).
Proof.
  unfold completion.
  pose proof (refresh_all_meta env
    (upsert_meta (running (now env (length (calls st)))) st).2) as Hmeta.
  destruct (handler_response_cases env method st)
    as [[-> ->]|(Hm & st2 & <- & [->|[error ->]])].
  - split; intros [=].
  - split; intros [=]. eexists _, _. simpl.
    rewrite last_snoc, lookup_insert_eq. done.
  - split; intros [=]. eexists _, _. simpl.
    rewrite last_snoc, lookup_insert_eq. simpl.
    repeat (split; [done|]).
    simpl in Hmeta. rewrite Hmeta. by rewrite lookup_insert_eq.
Qed.

Lemma handler_keeps_completion env method st :
  succeeded (handler env method st).1 = false →
  completion (handler env method st).2 = completion st.
Proof.
  intros Hs.
  destruct (handler_response_cases env method st)
    as [[-> ->]|(Hm & st2 & <- & [Heq|[error Heq]])].
  - done.
  - by rewrite Heq in Hs.
  - destruct (handler_updates env method st) as [Herr _].
    rewrite Heq in Herr. destruct (Herr eq_refl) as (? & ? & _ & _ & _ & _ & _ & _ & Hc).
    by rewrite Heq.
Qed.

Lemma serve_completion env methods st :
  completion (serve env methods st) =
    completion (default st (last_success env methods st)).
Proof.
  revert st. induction methods as [|m ms IH]; intros st; simpl; [done|].
  rewrite IH. destruct (last_success env ms _) as [s|]; simpl; [done|].
  destruct (succeeded _) eqn:Hs; simpl; [done|].
  by apply handler_keeps_completion.
Qed.

(** C8: the update of the error path carries the status and the error
    only, so the completion time of the status row stays what it was; the
    update of the success path sets the error to null and the completion
    time to the time of completion.  After any sequence of requests the
    completion time is therefore the one the last successful run wrote,
    or the initial one when none succeeded. *)
Theorem status_updates_frame env method st :
  let st' := (handler env method st).2 in
  let after := leaderboard_meta st' !! cacheKey in
  ((handler env method st).1 = Ok failure_response →
     ∃ patch message,
       last (calls st') = Some (UpsertMeta cacheKey patch) ∧
       set_status patch = "error" ∧
       set_last_error patch = Some (Some message) ∧
       set_last_completed_at patch = None ∧
       set_last_started_at patch = None ∧
       after ≫= last_error = Some message ∧
       completion st' = completion st) ∧
  ((handler env method st).1 = Ok success_response →
     ∃ patch t,
       last (calls st') = Some (UpsertMeta cacheKey patch) ∧
       set_status patch = "idle" ∧
       set_last_error patch = Some None ∧
       set_last_completed_at patch = Some t ∧
       after ≫= last_error = None ∧
       completion st' = Some t) ∧
  ∀ methods,
    completion (serve env methods st) =
      completion (default st (last_success env methods st)).
Proof.
  intros st' after. subst st' after.
  destruct (handler_updates env method st) as [Herr Hok].
  split; [exact Herr|]. split; [exact Hok|].
  intros methods. apply serve_completion.
Qed.

(** C6: when the first collection is done and the second throws, the
    handler answers 500, the entries table is as the first collection
    left it (its rows written over what was there before, nothing rolled
    back or removed), and the status row is in error with the message. *)
Theorem failure_keeps_written_rows env method st st2 st3 error :
  method ≠ "OPTIONS" →
  refresh_collection env (Mythic, "mythicseed")
    (upsert_meta (running (now env (length (calls st)))) st).2 = (Ok (), st2) →
  refresh_collection env (Ancient, "ancientseed") st2 = (Throw error, st3) →
  ∃ st',
    handler env method st = (Ok failure_response, st') ∧
    calls st' = calls st3 ++ [UpsertMeta cacheKey (failed (error_message error))] ∧
    leaderboard_entries st' = leaderboard_entries st2 ∧
    (∃ nfts pointsById listedIds,
       leaderboard_entries st' =
         foldl upsert_row (leaderboard_entries st)
           (map (entry_of "mythicseed" Mythic pointsById listedIds) nfts)) ∧
    ∃ row,
      leaderboard_meta st' !! cacheKey = Some row ∧
      meta_status row = "error" ∧
      last_error row = Some (error_message error).
Proof.
  intros Hm H1 H2.
  rewrite (handler_run env method st Hm), refresh_all_unfold, H1, H2.
  eexists. split; [reflexivity|]. simpl.
  destruct (refresh_collection_throw _ _ _ _ _ H2) as [He _].
  split; [done|]. split; [done|]. split.
  - rewrite He. by apply refresh_collection_written in H1.
  - eexists. split; [apply lookup_insert_eq|]. done.
Qed.

(** ** One collection of three tokens *)

Lemma paging_one_page {Page Acc} (fetch : option string → M State (HttpResponse Page))
    maxPages (collect : Acc → Page → Acc) next fuel k c acc st r st1 data :
  fetch c st = (Ok r, st1) → ok r = true → json r = Ok data →
  truthy_string (next data) = false →
  paging fetch maxPages collect next (S fuel) k c acc st =
    Some (Ok (collect acc data), st1).
Proof.
  intros H1 H2 H3 H4. simpl. rewrite H1, H2, H3. simpl.
  destruct (maxPages <=? S k); [done|].
  unfold cursor. by rewrite H4.
Qed.

Lemma fetchAllNFTs_one_page env collectionSlug st data :
  nfts_api env (length (calls st)) collectionSlug None = answer data →
  truthy_string (nfts_next data) = false →
  fetchAllNFTs env collectionSlug st =
    (Ok (default [] (nfts data)), issue (GetNfts collectionSlug 200 None) st).
Proof.
  intros Hapi Hnext. unfold fetchAllNFTs, fetchAllNFTs_fuel.
  erewrite paging_one_page;
    [reflexivity
    |unfold fetch_nfts; rewrite Hapi; reflexivity
    |reflexivity|reflexivity|exact Hnext].
Qed.

Lemma fetchListedTokenIds_one_page env collectionSlug st data :
  listings_api env (length (calls st)) collectionSlug None = answer data →
  truthy_string (listings_next data) = false →
  fetchListedTokenIds env collectionSlug st =
    (Ok (add_listed ∅ data), issue (GetListings collectionSlug None) st).
Proof.
  intros Hapi Hnext. unfold fetchListedTokenIds, fetchListedTokenIds_fuel.
  erewrite paging_one_page;
    [reflexivity
    |unfold fetch_listings; rewrite Hapi; reflexivity
    |reflexivity|reflexivity|exact Hnext].
Qed.

Definition row_of (collectionSlug : string) (nftType : NFTType) (nft : NFTItem)
    (p : float) (listed : bool) : Entry :=
  {| collection_slug := collectionSlug;
     nft_type := nftType;
     token_id := identifier nft;
     points := VNum p;
     entry_image_url := image_url nft;
     entry_opensea_url := opensea_url nft;
     is_listed := listed |}.

(** C2: a collection of three tokens [a], [b], [c] that come in one
    page, of which only [b] is listed, with 5, 0 and 12 points: the job
    sends one upsert, with the three rows (a, 5, not listed),
    (b, 0, listed), (c, 12, not listed), and the table holds them.  The
    identifiers are distinct, not empty, and none is [__proto__], the one
    key [pointsById] does not store. *)
Theorem refresh_three_tokens env nftType collectionSlug st a b c listing :
  identifier a ≠ "" → identifier b ≠ "" → identifier c ≠ "" →
  identifier a ≠ "__proto__" → identifier b ≠ "__proto__" →
  identifier c ≠ "__proto__" →
  identifier a ≠ identifier b →
  identifier a ≠ identifier c →
  identifier b ≠ identifier c →
  offered_identifier listing = Some (identifier b) →
  nfts_api env (length (calls st)) collectionSlug None =
    answer {| nfts := Some [a; b; c]; nfts_next := None |} →
  listings_api env (length (calls st) + 1) collectionSlug None =
    answer {| listings := Some [listing]; listings_next := None |} →
  points_api env (length (calls st) + 2) (identifier a) nftType =
    answer (VObj [("points", VNum 5)]) →
  points_api env (length (calls st) + 3) (identifier b) nftType =
    answer (VObj [("points", VNum 0)]) →
  points_api env (length (calls st) + 4) (identifier c) nftType =
    answer (VObj [("points", VNum 12)]) →
  ∃ st',
    refresh_collection env (nftType, collectionSlug) st = (Ok (), st') ∧
    calls st' =
      calls st ++
      [GetNfts collectionSlug 200 None;
       GetListings collectionSlug None;
       GetPoints (identifier a) nftType;
       GetPoints (identifier b) nftType;
       GetPoints (identifier c) nftType;
       UpsertEntries
         [row_of collectionSlug nftType a 5 false;
          row_of collectionSlug nftType b 0 true;
          row_of collectionSlug nftType c 12 false]] ∧
    leaderboard_entries st' =
      upsert_row
        (upsert_row
           (upsert_row (leaderboard_entries st) (row_of collectionSlug nftType a 5 false))
           (row_of collectionSlug nftType b 0 true))
        (row_of collectionSlug nftType c 12 false).
Proof.
  intros Ha Hb Hc Hpa' Hpb' Hpc' Hab Hac Hbc Hl Hnfts Hlistings Hpa Hpb Hpc.
  assert (fetchAllNFTs env collectionSlug st =
            (Ok [a; b; c], issue (GetNfts collectionSlug 200 None) st)) as H1.
  { by rewrite (fetchAllNFTs_one_page _ _ _ _ Hnfts). }
  assert (truthy_string (Some (identifier b)) = true) as Htb.
  { simpl. by destruct (String.eqb_spec (identifier b) ""). }
  assert (fetchListedTokenIds env collectionSlug (issue (GetNfts collectionSlug 200 None) st) =
            (Ok (∅ ∪ {[identifier b]}),
             issue (GetListings collectionSlug None)
               (issue (GetNfts collectionSlug 200 None) st))) as H2.
  { erewrite fetchListedTokenIds_one_page; [|simpl; rewrite length_app; exact Hlistings|done].
    unfold add_listed. simpl. by rewrite Hl, Htb. }
  destruct (refresh_collection_ok env nftType collectionSlug st _ _ _ _ H1 H2)
    as (pointsById & st3 & H3 & Hrun).
  assert (List.filter (λ id, truthy (VStr id)) (map identifier [a; b; c]) =
            [identifier a; identifier b; identifier c]) as Hids.
  { simpl.
    destruct (String.eqb_spec (identifier a) ""); [done|].
    destruct (String.eqb_spec (identifier b) ""); [done|].
    by destruct (String.eqb_spec (identifier c) ""). }
  rewrite Hids in H3.
  destruct (fetchPointsBatch_spec env [identifier a; identifier b; identifier c] nftType
              (issue (GetListings collectionSlug None)
                 (issue (GetNfts collectionSlug 200 None) st)))
    as (m & H3' & Hdom & Hin & Hval & _).
  rewrite H3 in H3'. injection H3' as -> ->.
  assert (length (calls (issue (GetListings collectionSlug None)
                           (issue (GetNfts collectionSlug 200 None) st))) =
          length (calls st) + 2) as Hlen.
  { simpl. rewrite !length_app. simpl. lia. }
  rewrite Hlen in Hval.
  assert (∀ nft p,
            nft ∈ [a; b; c] → identifier nft ≠ "__proto__" →
            (∀ i, [identifier a; identifier b; identifier c] !! i = Some (identifier nft) →
                  lookup_value (points_api env (length (calls st) + 2 + i) (identifier nft) nftType)
                  = VNum p) →
            own m !! identifier nft = Some (VNum p)) as Hpoints.
  { intros nft p Hnft Hne Hi.
    assert (is_Some (own m !! identifier nft)) as [v Hv].
    { apply elem_of_dom. apply Hin; [set_solver|done]. }
    rewrite Hv. f_equal. destruct (Hval _ _ Hv) as (i & Hi' & ->). by apply Hi. }
  assert (own m !! identifier a = Some (VNum 5)) as Hma.
  { apply Hpoints; [set_solver|done|]. intros [|[|[|i]]]; simpl; intros [=]; try congruence.
    by rewrite Nat.add_0_r, Hpa. }
  assert (own m !! identifier b = Some (VNum 0)) as Hmb.
  { apply Hpoints; [set_solver|done|]. intros [|[|[|i]]]; simpl; intros [=]; try congruence.
    replace (length (calls st) + 2 + 1) with (length (calls st) + 3) by lia.
    by rewrite Hpb. }
  assert (own m !! identifier c = Some (VNum 12)) as Hmc.
  { apply Hpoints; [set_solver|done|]. intros [|[|[|i]]]; simpl; intros [=]; try congruence.
    replace (length (calls st) + 2 + 2) with (length (calls st) + 4) by lia.
    by rewrite Hpc. }
  assert (entry_of collectionSlug nftType m (∅ ∪ {[identifier b]}) a =
            row_of collectionSlug nftType a 5 false) as Ea.
  { unfold entry_of, row_of, get. rewrite Hma. simpl. f_equal.
    apply bool_decide_eq_false. set_solver. }
  assert (entry_of collectionSlug nftType m (∅ ∪ {[identifier b]}) b =
            row_of collectionSlug nftType b 0 true) as Eb.
  { unfold entry_of, row_of, get. rewrite Hmb. simpl. f_equal.
    apply bool_decide_eq_true. set_solver. }
  assert (entry_of collectionSlug nftType m (∅ ∪ {[identifier b]}) c =
            row_of collectionSlug nftType c 12 false) as Ec.
  { unfold entry_of, row_of, get. rewrite Hmc. simpl. f_equal.
    apply bool_decide_eq_false. set_solver. }
  eexists. split; [exact Hrun|].
  change (chunked 100 [a; b; c]) with [[a; b; c]].
  simpl. rewrite Ea, Eb, Ec. split; [|done].
  by rewrite <- !app_assoc.
Qed.

(** *** The scenario, run *)

Definition seed (id : string) : NFTItem :=
  {| identifier := id;
     image_url := Some ("https://img.example/" +:+ id);
     opensea_url := None |}.

Definition listing_of (id : string) : OpenSeaListing :=
  {| price := None;
     protocol_data :=
       Some {| parameters :=
         Some {| offer :=
           Some [{| identifierOrCriteria := id; token := "0xseed"; imageUrl := None |}] |} |} |}.

Definition env_three : Env :=
  {| nfts_api := λ _ _ _,
       answer {| nfts := Some [seed "A"; seed "B"; seed "C"]; nfts_next := None |};
     listings_api := λ _ _ _,
       answer {| listings := Some [listing_of "B"]; listings_next := None |};
     points_api := λ _ id _,
       answer (VObj [("points",
         VNum (if String.eqb id "A" then 5 else if String.eqb id "B" then 0 else 12))]);
     now := λ n, "t" +:+ pretty n;
     arrival := λ n, n |}.

Lemma refresh_three_tokens_witness :
  ∃ st',
    refresh_collection env_three (Mythic, "mythicseed") empty_store = (Ok (), st') ∧
    calls st' =
      [GetNfts "mythicseed" 200 None;
       GetListings "mythicseed" None;
       GetPoints "A" Mythic;
       GetPoints "B" Mythic;
       GetPoints "C" Mythic;
       UpsertEntries
         [row_of "mythicseed" Mythic (seed "A") 5 false;
          row_of "mythicseed" Mythic (seed "B") 0 true;
          row_of "mythicseed" Mythic (seed "C") 12 false]].
Proof.
  destruct (refresh_three_tokens env_three Mythic "mythicseed" empty_store
              (seed "A") (seed "B") (seed "C") (listing_of "B"))
    as (st' & Hrun & Hcalls & _);
    [discriminate|discriminate|discriminate|discriminate|discriminate|discriminate
    |discriminate|discriminate|discriminate
    |reflexivity|reflexivity|reflexivity|reflexivity|reflexivity|reflexivity|].
  exists st'. split; [exact Hrun|exact Hcalls].
Defined.

(** The whole job on that marketplace: both collections answer alike. *)
Example handler_three_tokens :
  (handler env_three "POST" empty_store).1 = Ok success_response ∧
  leaderboard_meta (handler env_three "POST" empty_store).2 !! cacheKey =
    Some {| meta_status := "idle";
            last_started_at := Some "t0";
            last_completed_at := Some "t13";
            last_error := None |} ∧
  leaderboard_entries (handler env_three "POST" empty_store).2 !! ("ancientseed", "B") =
    Some (row_of "ancientseed" Ancient (seed "B") 0 true) ∧
  size (leaderboard_entries (handler env_three "POST" empty_store).2) = 6.
Proof. repeat split; vm_compute; reflexivity. Qed.

(** *** A marketplace whose pages never end, and one that fails on page 2 *)

Definition env_endless : Env :=
  {| nfts_api := λ n _ _,
       answer {| nfts := Some [seed (pretty n)]; nfts_next := Some "more" |};
     listings_api := λ n _ _,
       answer {| listings := Some [listing_of (pretty n)]; listings_next := Some "more" |};
     points_api := λ _ _ _, offline;
     now := λ _, "t";
     arrival := λ _, 0 |}.

Example fetchAllNFTs_capped :
  (fetchAllNFTs env_endless "mythicseed" empty_store).1 =
    Ok (map (λ n, seed (pretty n)) (seq 0 50)) ∧
  calls (fetchAllNFTs env_endless "mythicseed" empty_store).2 =
    GetNfts "mythicseed" 200 None :: replicate 49 (GetNfts "mythicseed" 200 (Some "more")).
Proof. split; vm_compute; reflexivity. Qed.

Example fetchListedTokenIds_capped :
  length (calls (fetchListedTokenIds env_endless "mythicseed" empty_store).2) = 20 ∧
  ∃ ids, (fetchListedTokenIds env_endless "mythicseed" empty_store).1 = Ok ids ∧
         size ids = 20.
Proof. split; [vm_compute; reflexivity|]. eexists. split; [reflexivity|]. vm_compute. reflexivity. Qed.

Definition env_page2_fails : Env :=
  {| nfts_api := λ _ _ _, answer {| nfts := None; nfts_next := None |};
     listings_api := λ n _ _,
       if n =? 1
       then answer {| listings := Some [listing_of "7"]; listings_next := Some "p2" |}
       else Ok {| status := 500; text := Ok "Internal Server Error"; json := Throw (JsError "Unexpected token") |};
     points_api := λ _ _ _, offline;
     now := λ _, "t";
     arrival := λ _, 0 |}.

Example listings_page2_fails :
  fetchListedTokenIds env_page2_fails "mythicseed"
    (issue (GetNfts "mythicseed" 200 None) empty_store) =
    (Ok (∅ ∪ {["7"]}),
     {| calls := [GetNfts "mythicseed" 200 None;
                  GetListings "mythicseed" None;
                  GetListings "mythicseed" (Some "p2")];
        leaderboard_entries := ∅;
        leaderboard_meta := ∅ |}).
Proof. vm_compute. reflexivity. Qed.

(** *** A marketplace that fails on the second collection *)

Definition env_half : Env :=
  {| nfts_api := λ _ slug _,
       if String.eqb slug "mythicseed"
       then answer {| nfts := Some [seed "1"]; nfts_next := None |}
       else offline;
     listings_api := λ _ _ _, answer {| listings := None; listings_next := None |};
     points_api := λ _ _ _, answer (VObj [("stakingPoints", VNum 7)]);
     now := λ n, "t" +:+ pretty n;
     arrival := λ _, 0 |}.

Definition started_half : State :=
  (upsert_meta (running (now env_half (length (calls empty_store)))) empty_store).2.

Definition after_mythic : State :=
  (refresh_collection env_half (Mythic, "mythicseed") started_half).2.

Definition after_ancient : State :=
  (refresh_collection env_half (Ancient, "ancientseed") after_mythic).2.

Lemma failure_keeps_written_rows_witness :
  refresh_collection env_half (Mythic, "mythicseed") started_half = (Ok (), after_mythic) ∧
  refresh_collection env_half (Ancient, "ancientseed") after_mythic =
    (Throw (JsError "error sending request"), after_ancient) ∧
  leaderboard_entries after_mythic !! ("mythicseed", "1") =
    Some (row_of "mythicseed" Mythic (seed "1") 7 false) ∧
  ∃ st',
    handler env_half "POST" empty_store = (Ok failure_response, st') ∧
    leaderboard_entries st' = leaderboard_entries after_mythic ∧
    ∃ row,
      leaderboard_meta st' !! cacheKey = Some row ∧
      meta_status row = "error" ∧
      last_error row = Some "error sending request".
Proof.
  assert (refresh_collection env_half (Mythic, "mythicseed") started_half =
            (Ok (), after_mythic)) as H1 by (vm_compute; reflexivity).
  assert (refresh_collection env_half (Ancient, "ancientseed") after_mythic =
            (Throw (JsError "error sending request"), after_ancient)) as H2
    by (vm_compute; reflexivity).
  split; [exact H1|]. split; [exact H2|]. split; [vm_compute; reflexivity|].
  destruct (failure_keeps_written_rows env_half "POST" empty_store _ _ _
              ltac:(discriminate) H1 H2) as (st' & Hrun & _ & Hrows & _ & Hrow).
  exists st'. split; [exact Hrun|]. split; [exact Hrows|exact Hrow].
Defined.

(** *** A marketplace that cannot be reached *)

Lemma handler_always_responds_witness :
  ∃ st' row,
    handler env_negative "POST" empty_store = (Ok failure_response, st') ∧
    leaderboard_meta st' !! cacheKey = Some row ∧
    meta_status row = "error" ∧
    last_error row = Some "error sending request".
Proof.
  destruct (handler_always_responds env_negative "POST" empty_store)
    as (response & st' & Hrun & Hcases).
  specialize (Hcases ltac:(discriminate)).
  assert (refresh_all env_negative
            (upsert_meta (running (now env_negative (length (calls empty_store))))
               empty_store).2 =
          (Throw (JsError "error sending request"),
           issue (GetNfts "mythicseed" 200 None)
             (upsert_meta (running (now env_negative (length (calls empty_store))))
                empty_store).2)) as Hthrow by (vm_compute; reflexivity).
  rewrite Hthrow in Hcases.
  destruct Hcases as (-> & _ & row & Hrow & Hstatus & _ & Hmessage & _).
  exists st', row. split; [exact Hrun|]. split; [exact Hrow|]. split; [exact Hstatus|].
  exact (Hmessage _ eq_refl).
Defined.

End RefreshFacts.

(** ** The two staking lookups, side by side *)

Module StakingFacts.

(** A lookup through [fetchStakingPoints] that misses the cache: only
    the field [points] is read, and a falsy one counts as 0. *)
Lemma fetchStakingPoints_miss env tokenId nftType st :
  Api.pointsCache st !! Api.key_of tokenId nftType = None →
  ∃ st',
    Api.fetchStakingPoints env tokenId nftType st =
      (Ok match Api.staking env (length (Api.requests st)) tokenId nftType with
          | Ok response =>
              if ok response then
                match json response with
                | Ok (VObj fields) => js_or (assoc "points" fields) (VNum 0)
                | _ => VNum 0
                end
              else VNum 0
          | Throw _ => VNum 0
          end, st').
Proof.
  intros Hmiss. unfold Api.fetchStakingPoints, Api.fetchStakingPoints_start. rewrite Hmiss.
  unfold Api.fetchStakingPoints_resume, try_catch, bind, lift, Api.pointsCache_set, ret; simpl.
  destruct (Api.staking env _ tokenId nftType) as [response|e]; simpl; [|by eexists].
  destruct (ok response); simpl; [|by eexists].
  destruct (json response) as [data|e]; simpl; [|by eexists].
  destruct data; simpl; by eexists.
Qed.

Definition only_totalPoints : Outcome (HttpResponse Value) :=
  answer (VObj [("totalPoints", VNum 7)]).

Definition env_totalPoints : Api.Env :=
  {| Api.staking := λ _ _ _, only_totalPoints;
     Api.parseFloat := λ _, 0%float |}.

(** C5 holds of the lookup of [fetchPointsBatch], not of
    [fetchStakingPoints]: when the service answers
    [{"totalPoints": 7}] the first gives 7, the second returns 0 and
    caches it. *)
Theorem fetchStakingPoints_ignores_totalPoints :
  LeaderboardRefresh.lookup_value only_totalPoints = VNum 7 ∧
  ∃ st',
    Api.fetchStakingPoints env_totalPoints "1" Mythic
      {| Api.pointsCache := ∅; Api.requests := [] |} = (Ok (VNum 0), st') ∧
    Api.pointsCache st' !! "Mythic_1" = Some (VNum 0).
Proof.
  split; [reflexivity|]. eexists. split; [reflexivity|]. vm_compute. reflexivity.
Qed.

End StakingFacts.

(** * More of the refresh job *)

Module RefreshMore.
Import LeaderboardRefresh RefreshFacts.

(** ** Slices *)

Lemma slices_lookup {A} fuel size j (a : list A) i :
  slices fuel size j a !! i =
    if decide (i < fuel ∧ j + i * size < length a)
    then Some (take size (drop (j + i * size) a))
    else None.
Proof.
  revert j i. induction fuel as [|fuel IH]; intros j i; cbn [slices].
  { rewrite lookup_nil. case_decide; [lia|done]. }
  destruct (j <? length a) eqn:Hj.
  - apply Nat.ltb_lt in Hj. destruct i as [|i].
    + change (Some (take size (drop j a)) =
              if decide (0 < S fuel ∧ j + 0 * size < length a)
              then Some (take size (drop (j + 0 * size) a)) else None).
      rewrite Nat.mul_0_l, Nat.add_0_r. case_decide; [done|lia].
    + change (slices fuel size (j + size) a !! i =
              if decide (S i < S fuel ∧ j + S i * size < length a)
              then Some (take size (drop (j + S i * size) a)) else None).
      rewrite IH. replace (j + size + i * size) with (j + S i * size) by lia.
      repeat case_decide; try done; lia.
  - apply Nat.ltb_ge in Hj. rewrite lookup_nil. case_decide; [lia|done].
Qed.

(** X1: the slices of a positive size put together give the array back;
    the [i]-th slice is the [size] elements from index [i * size] on (fewer
    at the end of the array), so every slice has between 1 and [size]
    elements. *)
Theorem chunked_slices {A} size (a : list A) :
  0 < size →
  concat (chunked size a) = a ∧
  (∀ i, chunked size a !! i =
        if decide (i * size < length a)
        then Some (take size (drop (i * size) a))
        else None) ∧
  Forall (λ chunk, 1 ≤ length chunk ≤ size) (chunked size a).
Proof.
  intros Hsize.
  assert (∀ i, chunked size a !! i =
               if decide (i * size < length a)
               then Some (take size (drop (i * size) a))
               else None) as Hlookup.
  { intros i. unfold chunked. rewrite slices_lookup, Nat.add_0_l.
    repeat case_decide; try done; exfalso; nia. }
  split; [by apply chunked_concat|]. split; [exact Hlookup|].
  apply Forall_lookup. intros i chunk Hi. rewrite Hlookup in Hi.
  case_decide; [|done]. injection Hi as <-.
  rewrite length_take, length_drop. lia.
Qed.

Lemma chunked_slices_witness :
  chunked 2 [1; 2; 3; 4; 5] = [[1; 2]; [3; 4]; [5]] ∧
  concat (chunked 2 [1; 2; 3; 4; 5]) = [1; 2; 3; 4; 5].
Proof.
  split; [reflexivity|].
  exact (proj1 (chunked_slices 2 [1; 2; 3; 4; 5] ltac:(lia))).
Defined.

(** ** Points *)

(** X2: [fetchPointsBatch] never throws; it sends one request for every
    id of its input, duplicates included, in the order of the input, and
    it writes to neither table. *)
Theorem fetchPointsBatch_requests env tokenIds nftType st :
  ∃ pointsById,
    fetchPointsBatch env tokenIds nftType st =
      (Ok pointsById,
       {| calls := calls st ++ map (λ tokenId, GetPoints tokenId nftType) tokenIds;
          leaderboard_entries := leaderboard_entries st;
          leaderboard_meta := leaderboard_meta st |}).
Proof.
  destruct (fetchPointsBatch_spec env tokenIds nftType st) as (m & Hrun & _).
  by exists m.
Qed.

(** X3: when the ids are distinct, the value of each id is the value of
    its own lookup, whatever the other lookups gave and in whatever order
    the responses arrived.  The ids are ordinary keys: [pointsById] is a
    plain object, and stores no entry for [__proto__]. *)
Theorem fetchPointsBatch_isolated env tokenIds nftType st :
  NoDup tokenIds →
  "__proto__" ∉ tokenIds →
  ∃ pointsById st',
    fetchPointsBatch env tokenIds nftType st = (Ok pointsById, st') ∧
    ∀ i tokenId,
      tokenIds !! i = Some tokenId →
      own pointsById !! tokenId =
        Some (lookup_value (points_api env (length (calls st) + i) tokenId nftType)).
Proof.
  intros Hnodup Hproto.
  destruct (fetchPointsBatch_spec env tokenIds nftType st)
    as (m & Hrun & Hdom & Hin & Hval & _).
  exists m. eexists. split; [exact Hrun|].
  intros i tokenId Hi.
  assert (is_Some (own m !! tokenId)) as [v Hv].
  { apply elem_of_dom. apply list_elem_of_lookup_2 in Hi as Hid.
    apply Hin; [done|]. by intros ->. }
  rewrite Hv. f_equal. destruct (Hval _ _ Hv) as (j & Hj & ->).
  by rewrite (NoDup_lookup _ _ _ _ Hnodup Hi Hj).
Qed.

Definition env_flaky : Env :=
  {| nfts_api := λ _ _ _, offline;
     listings_api := λ _ _ _, offline;
     points_api := λ n _ _,
       if n =? 1 then offline else answer (VObj [("totalPoints", VNum 4)]);
     now := λ _, "t";
     arrival := λ n, n |}.

Lemma fetchPointsBatch_isolated_witness :
  NoDup ["1"; "2"; "3"] ∧
  ∃ pointsById st',
    fetchPointsBatch env_flaky ["1"; "2"; "3"] Mythic empty_store = (Ok pointsById, st') ∧
    own pointsById !! "1" = Some (VNum 4) ∧
    own pointsById !! "2" = Some (VNum 0) ∧
    own pointsById !! "3" = Some (VNum 4).
Proof.
  assert (NoDup ["1"; "2"; "3"]) as Hnodup.
  { repeat constructor; set_solver. }
  split; [exact Hnodup|].
  destruct (fetchPointsBatch_isolated env_flaky ["1"; "2"; "3"] Mythic empty_store Hnodup)
    as (m & st' & Hrun & Hval); [set_solver|].
  exists m, st'. split; [exact Hrun|].
  split; [exact (Hval 0 "1" eq_refl)|].
  split; [exact (Hval 1 "2" eq_refl)|exact (Hval 2 "3" eq_refl)].
Defined.

Lemma lookup_value_not_nullish res : nullish (lookup_value res) = false.
Proof.
  unfold lookup_value. destruct res as [res|e]; [|done].
  destruct (ok res); [|done]. destruct (json res) as [data|e]; [|done].
  destruct (prop data "points") as [p|]; [|done].
  destruct (prop data "totalPoints") as [t|]; [|done].
  destruct (prop data "stakingPoints") as [s|]; [|done].
  unfold js_coalesce.
  destruct (nullish p) eqn:Hp; [|done].
  destruct (nullish t) eqn:Ht; [|done].
  by destruct (nullish s) eqn:Hs.
Qed.

(** ** Listed ids *)

(** X5: after a page is read, the listed ids are those listed before
    and the non-empty ids offered first by a listing of the page. *)
Theorem add_listed_spec listedIds data id :
  id ∈ add_listed listedIds data ↔
  id ∈ listedIds ∨
  (id ≠ "" ∧ ∃ listing, listing ∈ default [] (listings data) ∧
                        offered_identifier listing = Some id).
Proof.
  unfold add_listed. generalize (default [] (listings data)) as ls.
  intros ls. revert listedIds.
  induction ls as [|l ls IH]; intros listedIds; simpl.
  { split; [by left|]. intros [?|(_ & l & Hl & _)]; [done|]. by apply elem_of_nil in Hl. }
  rewrite IH. clear IH.
  destruct (offered_identifier l) as [id'|] eqn:Hl; simpl.
  - destruct (String.eqb_spec id' "") as [->|Hne]; simpl.
    + split.
      * intros [?|(Hid & l' & Hin & Hl')]; [by left|right].
        split; [done|]. exists l'. split; [by right|done].
      * intros [?|(Hid & l' & Hin & Hl')]; [by left|].
        apply elem_of_cons in Hin as [->|Hin]; [congruence|].
        right. split; [done|]. by exists l'.
    + split.
      * intros [Hin|(Hid & l' & Hin & Hl')].
        -- apply elem_of_union in Hin as [?|Hin]; [by left|].
           apply elem_of_singleton in Hin as ->. right. split; [done|].
           exists l. split; [by left|done].
        -- right. split; [done|]. exists l'. split; [by right|done].
      * intros [?|(Hid & l' & Hin & Hl')]; [left; set_solver|].
        apply elem_of_cons in Hin as [->|Hin].
        -- left. rewrite Hl in Hl'. injection Hl' as ->. set_solver.
        -- right. split; [done|]. by exists l'.
  - split.
    + intros [?|(Hid & l' & Hin & Hl')]; [by left|right].
      split; [done|]. exists l'. split; [by right|done].
    + intros [?|(Hid & l' & Hin & Hl')]; [by left|].
      apply elem_of_cons in Hin as [->|Hin]; [congruence|].
      right. split; [done|]. by exists l'.
Qed.

(** ** The entries table *)

Definition key_of_row (r : Entry) : string * string := (collection_slug r, token_id r).

Lemma foldl_upsert_other t rows k :
  Forall (λ r, key_of_row r ≠ k) rows → foldl upsert_row t rows !! k = t !! k.
Proof.
  revert t. induction rows as [|r rows IH]; intros t Hrows; simpl; [done|].
  apply Forall_cons in Hrows as [Hr Hrows].
  rewrite IH by done. unfold upsert_row. by rewrite lookup_insert_ne.
Qed.

Lemma foldl_upsert_dom t rows : dom t ⊆ dom (foldl upsert_row t rows).
Proof.
  revert t. induction rows as [|r rows IH]; intros t; simpl; [done|].
  etrans; [|apply IH]. unfold upsert_row. rewrite dom_insert. set_solver.
Qed.

Lemma foldl_upsert_lookup t rows r :
  r ∈ rows →
  ∃ r', r' ∈ rows ∧ key_of_row r' = key_of_row r ∧
        foldl upsert_row t rows !! key_of_row r = Some r'.
Proof.
  revert t r. induction rows as [|r0 rows IH]; intros t r Hin;
    [by apply elem_of_nil in Hin|].
  simpl.
  destruct (decide (key_of_row r ∈ key_of_row <$> rows)) as [Hlater|Hlater].
  - apply list_elem_of_fmap in Hlater as (r1 & Hkey & Hr1).
    destruct (IH (upsert_row t r0) r1 Hr1) as (r' & Hr' & Hk' & Hlookup).
    exists r'. split; [by right|]. split; [congruence|]. by rewrite Hkey.
  - apply elem_of_cons in Hin as [->|Hin].
    + exists r0. split; [by left|]. split; [done|].
      rewrite foldl_upsert_other.
      * unfold upsert_row. apply lookup_insert_eq.
      * apply Forall_forall. intros r1 Hr1 Heq. apply Hlater.
        apply list_elem_of_fmap. by exists r1.
    + exfalso. apply Hlater. apply list_elem_of_fmap. by exists r.
Qed.

(** X6: a refresh of one collection, whether it returns or throws,
    leaves the rows of every other collection as they were, removes no
    row, and does not write the status row. *)
Theorem refresh_collection_frame env nftType collectionSlug st :
  (∀ slug id,
     slug ≠ collectionSlug →
     leaderboard_entries (refresh_collection env (nftType, collectionSlug) st).2
       !! (slug, id) = leaderboard_entries st !! (slug, id)) ∧
  dom (leaderboard_entries st) ⊆
    dom (leaderboard_entries (refresh_collection env (nftType, collectionSlug) st).2) ∧
  leaderboard_meta (refresh_collection env (nftType, collectionSlug) st).2 =
    leaderboard_meta st.
Proof.
  split; [|split; [|apply refresh_collection_meta]].
  - intros slug id Hslug.
    destruct (refresh_collection env (nftType, collectionSlug) st) as [[[]|e] st'] eqn:Hrun;
      simpl.
    + apply refresh_collection_written in Hrun as (nfts & m & listed & ->).
      apply foldl_upsert_other. apply Forall_forall.
      intros r Hr. apply list_elem_of_fmap in Hr as (nft & -> & _).
      unfold key_of_row; simpl. congruence.
    + apply refresh_collection_throw in Hrun as [-> _]. done.
  - destruct (refresh_collection env (nftType, collectionSlug) st) as [[[]|e] st'] eqn:Hrun;
      simpl.
    + apply refresh_collection_written in Hrun as (nfts & m & listed & ->).
      apply foldl_upsert_dom.
    + apply refresh_collection_throw in Hrun as [-> _]. done.
Qed.

Lemma refresh_collection_rows_of env nftType collectionSlug st nfts st1 listedIds st2 :
  fetchAllNFTs env collectionSlug st = (Ok nfts, st1) →
  fetchListedTokenIds env collectionSlug st1 = (Ok listedIds, st2) →
  ∃ pointsById st3 st',
    fetchPointsBatch env
      (List.filter (λ id, truthy (VStr id)) (map identifier nfts)) nftType st2 =
      (Ok pointsById, st3) ∧
    refresh_collection env (nftType, collectionSlug) st = (Ok (), st') ∧
    calls st' =
      calls st2 ++
      map (λ tokenId, GetPoints tokenId nftType)
        (List.filter (λ id, truthy (VStr id)) (map identifier nfts)) ++
      map (λ batch,
             UpsertEntries (map (entry_of collectionSlug nftType pointsById listedIds) batch))
        (chunked 100 nfts) ∧
    ∀ nft, nft ∈ nfts →
      ∃ nft', nft' ∈ nfts ∧ identifier nft' = identifier nft ∧
        leaderboard_entries st' !! (collectionSlug, identifier nft) =
          Some (entry_of collectionSlug nftType pointsById listedIds nft').
Proof.
  intros H1 H2.
  destruct (refresh_collection_ok env nftType collectionSlug st nfts st1 listedIds st2 H1 H2)
    as (m & st3 & H3 & Hrun).
  destruct (fetchPointsBatch_spec env
              (List.filter (λ id, truthy (VStr id)) (map identifier nfts)) nftType st2)
    as (m' & H3' & _).
  rewrite H3 in H3'. injection H3' as -> ->.
  exists m'. eexists _, _. split; [exact H3|]. split; [exact Hrun|].
  split; [simpl; by rewrite <- app_assoc|].
  intros nft Hnft. simpl.
  destruct (foldl_upsert_lookup (leaderboard_entries st)
              (map (entry_of collectionSlug nftType m' listedIds) nfts)
              (entry_of collectionSlug nftType m' listedIds nft))
    as (r' & Hr' & Hkey & Hlookup).
  { apply list_elem_of_fmap. by exists nft. }
  apply list_elem_of_fmap in Hr' as (nft' & -> & Hnft').
  unfold key_of_row in *; simpl in *.
  exists nft'. split; [done|]. split; [congruence|done].
Qed.

(** X7: when the two fetches of a collection return, the points of the
    non-empty identifiers are looked up, and every fetched item has a row
    under (collection, identifier) afterwards: the row built from the
    looked-up points for a fetched item with that identifier.  For an
    identifier that is neither empty nor [__proto__], the points of the
    row are the value of a lookup made for that identifier. *)
Theorem refresh_collection_rows env nftType collectionSlug st nfts st1 listedIds st2 :
  fetchAllNFTs env collectionSlug st = (Ok nfts, st1) →
  fetchListedTokenIds env collectionSlug st1 = (Ok listedIds, st2) →
  ∃ pointsById st3 st',
    fetchPointsBatch env
      (List.filter (λ id, truthy (VStr id)) (map identifier nfts)) nftType st2 =
      (Ok pointsById, st3) ∧
    refresh_collection env (nftType, collectionSlug) st = (Ok (), st') ∧
    ∀ nft, nft ∈ nfts →
      ∃ nft' row,
        nft' ∈ nfts ∧ identifier nft' = identifier nft ∧
        row = entry_of collectionSlug nftType pointsById listedIds nft' ∧
        leaderboard_entries st' !! (collectionSlug, identifier nft) = Some row ∧
        (identifier nft ≠ "" → identifier nft ≠ "__proto__" →
         ∃ i,
           List.filter (λ id, truthy (VStr id)) (map identifier nfts) !! i =
             Some (identifier nft) ∧
           points row =
             lookup_value
               (points_api env (length (calls st2) + i) (identifier nft) nftType)).
Proof.
  intros H1 H2.
  destruct (refresh_collection_rows_of env nftType collectionSlug st _ _ _ _ H1 H2)
    as (m & st3 & st' & H3 & Hrun & _ & Hrows).
  exists m, st3, st'. split; [exact H3|]. split; [exact Hrun|].
  intros nft Hnft. destruct (Hrows nft Hnft) as (nft' & Hnft' & Hid & Hrow).
  exists nft', (entry_of collectionSlug nftType m listedIds nft').
  split; [done|]. split; [done|]. split; [done|]. split; [done|].
  intros Hne Hproto.
  destruct (fetchPointsBatch_spec env
              (List.filter (λ id, truthy (VStr id)) (map identifier nfts)) nftType st2)
    as (m' & H3' & _ & Hin & Hval & _).
  rewrite H3 in H3'. injection H3' as <- _.
  assert (identifier nft ∈ List.filter (λ id, truthy (VStr id)) (map identifier nfts))
    as Hlooked.
  { apply list_elem_of_In, filter_In. split.
    - apply list_elem_of_In, list_elem_of_fmap. by exists nft.
    - simpl. by destruct (String.eqb_spec (identifier nft) ""). }
  assert (is_Some (own m !! identifier nft)) as [v Hv].
  { apply elem_of_dom. by apply Hin. }
  destruct (Hval _ _ Hv) as (i & Hi & ->).
  exists i. split; [done|].
  unfold entry_of, get; simpl. rewrite Hid, Hv. simpl.
  by rewrite lookup_value_not_nullish.
Qed.

Lemma refresh_collection_rows_witness :
  fetchAllNFTs env_three "mythicseed" empty_store =
    (Ok [seed "A"; seed "B"; seed "C"], issue (GetNfts "mythicseed" 200 None) empty_store) ∧
  ∃ st' row,
    refresh_collection env_three (Mythic, "mythicseed") empty_store = (Ok (), st') ∧
    leaderboard_entries st' !! ("mythicseed", "C") = Some row ∧
    points row = VNum 12.
Proof.
  assert (fetchAllNFTs env_three "mythicseed" empty_store =
            (Ok [seed "A"; seed "B"; seed "C"],
             issue (GetNfts "mythicseed" 200 None) empty_store)) as H1
    by (vm_compute; reflexivity).
  assert (fetchListedTokenIds env_three "mythicseed"
            (issue (GetNfts "mythicseed" 200 None) empty_store) =
            (Ok (∅ ∪ {["B"]}),
             issue (GetListings "mythicseed" None)
               (issue (GetNfts "mythicseed" 200 None) empty_store))) as H2
    by (vm_compute; reflexivity).
  split; [exact H1|].
  destruct (refresh_collection_rows env_three Mythic "mythicseed" empty_store _ _ _ _ H1 H2)
    as (m & st3 & st' & _ & Hrun & Hrows).
  destruct (Hrows (seed "C")) as (nft' & row & _ & _ & _ & Hrow & Hpoints); [set_solver|].
  exists st', row. split; [exact Hrun|]. split; [exact Hrow|].
  destruct Hpoints as (i & _ & ->); [discriminate|discriminate|].
  reflexivity.
Defined.

(** X8: an item whose identifier is empty is not looked up (no points
    request is sent for the empty id), and is written all the same, under
    the empty token id; its points are 0 when no fetched item is called
    [__proto__].  (The lookup of such an item can change the prototype of
    [pointsById], from which the empty key is then read:
    [empty_identifier_inherits] below.) *)
Theorem empty_identifier_row env nftType collectionSlug st nfts st1 listedIds st2 nft :
  fetchAllNFTs env collectionSlug st = (Ok nfts, st1) →
  fetchListedTokenIds env collectionSlug st1 = (Ok listedIds, st2) →
  nft ∈ nfts → identifier nft = "" →
  ∃ st' row,
    refresh_collection env (nftType, collectionSlug) st = (Ok (), st') ∧
    (GetPoints "" nftType ∉ drop (length (calls st2)) (calls st')) ∧
    leaderboard_entries st' !! (collectionSlug, "") = Some row ∧
    token_id row = "" ∧
    ((∀ other, other ∈ nfts → identifier other ≠ "__proto__") → points row = VNum 0).
Proof.
  intros H1 H2 Hnft Hid.
  destruct (refresh_collection_rows_of env nftType collectionSlug st _ _ _ _ H1 H2)
    as (m & st3 & st' & H3 & Hrun & Hcalls & Hrows).
  destruct (fetchPointsBatch_spec env
              (List.filter (λ id, truthy (VStr id)) (map identifier nfts)) nftType st2)
    as (m' & H3' & Hdom & _ & _ & Hp).
  rewrite H3 in H3'. injection H3' as <- _.
  assert ("" ∉ (List.filter (λ id, truthy (VStr id)) (map identifier nfts))) as Hnot.
  { intros Hin. apply list_elem_of_In, filter_In in Hin as [_ Hin]. done. }
  destruct (Hrows nft Hnft) as (nft' & _ & Hid' & Hrow).
  rewrite Hid in Hid', Hrow.
  assert (own m !! "" = None) as Hm.
  { apply not_elem_of_dom. intros Hin. apply Hdom in Hin.
    by rewrite elem_of_list_to_set in Hin. }
  exists st', (entry_of collectionSlug nftType m listedIds nft').
  split; [exact Hrun|]. split; [|split; [exact Hrow|]].
  - rewrite Hcalls, drop_app_length. intros Hin.
    apply elem_of_app in Hin as [Hin|Hin].
    + apply list_elem_of_fmap in Hin as (id & [= <-] & Hin). done.
    + apply list_elem_of_fmap in Hin as (batch & [=] & _).
  - split; [exact Hid'|]. intros Hordinary.
    unfold entry_of, get; simpl. rewrite Hid', Hm, Hp; [done|].
    intros Hin. apply list_elem_of_In, filter_In in Hin as [Hin _].
    apply list_elem_of_In, list_elem_of_fmap in Hin as (other & Hother & Hin).
    by apply (Hordinary other).
Qed.

Definition env_unnamed : Env :=
  {| nfts_api := λ _ _ _, answer {| nfts := Some [seed ""; seed "9"]; nfts_next := None |};
     listings_api := λ _ _ _, answer {| listings := None; listings_next := None |};
     points_api := λ _ _ _, answer (VObj [("points", VNum 3)]);
     now := λ _, "t";
     arrival := λ _, 0 |}.

Lemma empty_identifier_row_witness :
  ∃ st' row,
    refresh_collection env_unnamed (Mythic, "mythicseed") empty_store = (Ok (), st') ∧
    leaderboard_entries st' !! ("mythicseed", "") = Some row ∧
    points row = VNum 0.
Proof.
  destruct (empty_identifier_row env_unnamed Mythic "mythicseed" empty_store
              [seed ""; seed "9"] (issue (GetNfts "mythicseed" 200 None) empty_store)
              ∅ (issue (GetListings "mythicseed" None)
                   (issue (GetNfts "mythicseed" 200 None) empty_store)) (seed ""))
    as (st' & row & Hrun & _ & Hrow & _ & Hpoints);
    [vm_compute; reflexivity|vm_compute; reflexivity|set_solver|reflexivity|].
  exists st', row. split; [exact Hrun|]. split; [exact Hrow|].
  apply Hpoints. intros other Hother.
  apply elem_of_cons in Hother as [->|Hother]; [discriminate|].
  apply list_elem_of_singleton in Hother as ->. discriminate.
Defined.

(** A token called [__proto__] whose points are an object: the object
    becomes the prototype of [pointsById], and the row of the item
    without identifier is sent with the 7 it inherits. *)
Definition env_inherits : Env :=
  {| nfts_api := λ _ _ _,
       answer {| nfts := Some [seed ""; seed "__proto__"]; nfts_next := None |};
     listings_api := λ _ _ _, answer {| listings := None; listings_next := None |};
     points_api := λ _ _ _, answer (VObj [("points", VObj [("", VNum 7)])]);
     now := λ _, "t";
     arrival := λ _, 0 |}.

Example empty_identifier_inherits :
  (refresh_collection env_inherits (Mythic, "mythicseed") empty_store).1 = Ok () ∧
  points <$>
    leaderboard_entries (refresh_collection env_inherits (Mythic, "mythicseed") empty_store).2
      !! ("mythicseed", "") = Some (VNum 7).
Proof. split; vm_compute; reflexivity. Qed.

(** ** The calls of a run *)

Definition is_status_write (c : Call) : bool :=
  match c with
  | UpsertMeta _ _ => true
  | _ => false
  end.

(** A marketplace request for the collection [slug]. *)
Definition asks_marketplace (slug : string) (c : Call) : bool :=
  match c with
  | GetNfts s _ _ | GetListings s _ => String.eqb s slug
  | _ => false
  end.

Lemma fetchAllNFTs_state env collectionSlug st :
  ∃ cursors,
    (fetchAllNFTs env collectionSlug st).2 =
      {| calls := calls st ++ map (GetNfts collectionSlug 200) cursors;
         leaderboard_entries := leaderboard_entries st;
         leaderboard_meta := leaderboard_meta st |}.
Proof.
  destruct (fetchAllNFTs_run env collectionSlug st) as (cs & _ & Hrun).
  exists (None :: cs). unfold fetchAllNFTs. by rewrite (Hrun 50).
Qed.

Lemma fetchListedTokenIds_state env collectionSlug st :
  ∃ cursors,
    (fetchListedTokenIds env collectionSlug st).2 =
      {| calls := calls st ++ map (GetListings collectionSlug) cursors;
         leaderboard_entries := leaderboard_entries st;
         leaderboard_meta := leaderboard_meta st |}.
Proof.
  destruct (fetchListedTokenIds_run env collectionSlug st) as (cs & _ & Hrun).
  exists (None :: cs). unfold fetchListedTokenIds. by rewrite (Hrun 20).
Qed.

Lemma refresh_collection_calls env nftType collectionSlug st :
  ∃ cs,
    calls (refresh_collection env (nftType, collectionSlug) st).2 = calls st ++ cs ∧
    Forall (λ c, is_status_write c = false) cs ∧
    ((∃ error, (refresh_collection env (nftType, collectionSlug) st).1 = Throw error) →
     Forall (λ c, asks_marketplace collectionSlug c = true) cs).
Proof.
  destruct (fetchAllNFTs_state env collectionSlug st) as (cs1 & E1).
  destruct (fetchAllNFTs env collectionSlug st) as [[nfts|e1] st1] eqn:H1; simpl in E1.
  2:{ unfold refresh_collection. rewrite (bind_throw _ _ _ _ _ H1). subst st1. simpl.
      exists (map (GetNfts collectionSlug 200) cs1). split; [done|].
      split; [|intros _]; apply Forall_fmap, Forall_forall; intros c _; simpl;
        [done|apply String.eqb_refl]. }
  destruct (fetchListedTokenIds_state env collectionSlug st1) as (cs2 & E2).
  destruct (fetchListedTokenIds env collectionSlug st1) as [[listedIds|e2] st2] eqn:H2;
    simpl in E2.
  2:{ unfold refresh_collection.
      rewrite (bind_ok _ _ _ _ _ H1), (bind_throw _ _ _ _ _ H2). subst st2 st1. simpl.
      exists (map (GetNfts collectionSlug 200) cs1 ++ map (GetListings collectionSlug) cs2).
      split; [by rewrite app_assoc|].
      split; [|intros _]; apply Forall_app; split;
        apply Forall_fmap, Forall_forall; intros c _; simpl;
        first [done|apply String.eqb_refl]. }
  destruct (refresh_collection_rows_of env nftType collectionSlug st _ _ _ _ H1 H2)
    as (m & st3 & st' & _ & Hrun & Hcalls & _).
  rewrite Hrun. simpl. rewrite Hcalls. subst st2 st1. simpl.
  eexists. split; [rewrite <- !app_assoc; reflexivity|].
  split; [|by intros [error [=]]].
  repeat (apply Forall_app; split); apply Forall_fmap, Forall_forall; by intros c _.
Qed.

Lemma refresh_all_calls env st :
  ∃ cs,
    calls (refresh_all env st).2 = calls st ++ cs ∧
    Forall (λ c, is_status_write c = false) cs.
Proof.
  rewrite refresh_all_unfold.
  destruct (refresh_collection_calls env Mythic "mythicseed" st) as (cs1 & E1 & F1 & _).
  destruct (refresh_collection env (Mythic, "mythicseed") st) as [[[]|e1] st1];
    simpl in E1; [|by exists cs1].
  destruct (refresh_collection_calls env Ancient "ancientseed" st1) as (cs2 & E2 & F2 & _).
  destruct (refresh_collection env (Ancient, "ancientseed") st1) as [[[]|e2] st2];
    simpl in *; exists (cs1 ++ cs2); rewrite E2, E1, app_assoc;
    (split; [done|by apply Forall_app]).
Qed.

(** X9: a run writes the status row exactly twice: [running], with the
    start time, before anything else, and [idle] or [error] as its last
    call; nothing in between writes the status row. *)
Theorem handler_status_writes env method st :
  method ≠ "OPTIONS" →
  ∃ job final,
    calls (handler env method st).2 =
      calls st ++
      [UpsertMeta cacheKey (running (now env (length (calls st))))] ++
      job ++ [UpsertMeta cacheKey final] ∧
    Forall (λ c, is_status_write c = false) job ∧
    (set_status final = "idle" ∨ set_status final = "error").
Proof.
  intros Hm. rewrite (handler_run env method st Hm).
  destruct (refresh_all_calls env
              (upsert_meta (running (now env (length (calls st)))) st).2)
    as (job & Hjob & Hnone).
  destruct (refresh_all env _) as [[[]|error] st2]; simpl in *;
    eexists job, _; rewrite Hjob, <- !app_assoc; (split; [reflexivity|]);
    (split; [done|]); [by left|by right].
Qed.

Lemma handler_status_writes_witness :
  ∃ job final,
    calls (handler env_three "POST" empty_store).2 =
      [UpsertMeta cacheKey (running "t0")] ++ job ++ [UpsertMeta cacheKey final] ∧
    Forall (λ c, is_status_write c = false) job.
Proof.
  destruct (handler_status_writes env_three "POST" empty_store ltac:(discriminate))
    as (job & final & Hcalls & Hjob & _).
  exists job, final. split; [exact Hcalls|exact Hjob].
Defined.

(** X10: when the first collection throws, the run ends there: the only
    call that follows is the status write, the second collection is never
    asked for, and the entries table is what it was before the run. *)
Theorem first_collection_failure_stops env method st st2 error :
  method ≠ "OPTIONS" →
  refresh_collection env (Mythic, "mythicseed")
    (upsert_meta (running (now env (length (calls st)))) st).2 = (Throw error, st2) →
  ∃ asked,
    handler env method st =
      (Ok failure_response, (upsert_meta (failed (error_message error)) st2).2) ∧
    calls (handler env method st).2 =
      calls st ++
      [UpsertMeta cacheKey (running (now env (length (calls st))))] ++
      asked ++ [UpsertMeta cacheKey (failed (error_message error))] ∧
    Forall (λ c, asks_marketplace "mythicseed" c = true) asked ∧
    leaderboard_entries (handler env method st).2 = leaderboard_entries st.
Proof.
  intros Hm H1.
  destruct (refresh_collection_calls env Mythic "mythicseed"
              (upsert_meta (running (now env (length (calls st)))) st).2)
    as (asked & Hcalls & _ & Hasked).
  rewrite H1 in Hcalls, Hasked. simpl in Hcalls.
  rewrite (handler_run env method st Hm), refresh_all_unfold, H1.
  exists asked. split; [done|]. simpl. rewrite Hcalls, <- !app_assoc.
  split; [done|]. split; [apply Hasked; by exists error|].
  by apply refresh_collection_throw in H1 as [-> _].
Qed.

Definition env_down : Env :=
  {| nfts_api := λ _ _ _, offline;
     listings_api := λ _ _ _, offline;
     points_api := λ _ _ _, offline;
     now := λ n, "t" +:+ pretty n;
     arrival := λ _, 0 |}.

Lemma first_collection_failure_stops_witness :
  calls (handler env_down "POST" empty_store).2 =
    [UpsertMeta cacheKey (running "t0");
     GetNfts "mythicseed" 200 None;
     UpsertMeta cacheKey (failed "error sending request")] ∧
  ∃ asked,
    calls (handler env_down "POST" empty_store).2 =
      [UpsertMeta cacheKey (running "t0")] ++ asked ++
      [UpsertMeta cacheKey (failed "error sending request")] ∧
    Forall (λ c, asks_marketplace "mythicseed" c = true) asked.
Proof.
  split; [vm_compute; reflexivity|].
  destruct (first_collection_failure_stops env_down "POST" empty_store
              (refresh_collection env_down (Mythic, "mythicseed")
                 (upsert_meta (running (now env_down 0)) empty_store).2).2
              (JsError "error sending request") ltac:(discriminate))
    as (asked & _ & Hcalls & Hasked & _); [vm_compute; reflexivity|].
  exists asked. split; [exact Hcalls|exact Hasked].
Defined.

(** ** A marketplace that answers with an error status *)

Lemma paging_not_ok {Page Acc} (fetch : option string → M State (HttpResponse Page))
    maxPages (collect : Acc → Page → Acc) next fuel k c acc st r st1 :
  fetch c st = (Ok r, st1) → ok r = false →
  paging fetch maxPages collect next (S fuel) k c acc st = Some (Ok acc, st1).
Proof. intros H1 H2. simpl. by rewrite H1, H2. Qed.

Lemma refresh_collection_not_ok env nftType collectionSlug st r1 r2 :
  nfts_api env (length (calls st)) collectionSlug None = Ok r1 → ok r1 = false →
  listings_api env (length (calls st) + 1) collectionSlug None = Ok r2 → ok r2 = false →
  refresh_collection env (nftType, collectionSlug) st =
    (Ok (),
     {| calls := calls st ++ [GetNfts collectionSlug 200 None; GetListings collectionSlug None];
        leaderboard_entries := leaderboard_entries st;
        leaderboard_meta := leaderboard_meta st |}).
Proof.
  intros Hn Hn' Hl Hl'.
  assert (fetchAllNFTs env collectionSlug st =
            (Ok [], issue (GetNfts collectionSlug 200 None) st)) as H1.
  { unfold fetchAllNFTs, fetchAllNFTs_fuel.
    erewrite paging_not_ok; [reflexivity|unfold fetch_nfts; rewrite Hn; reflexivity|done]. }
  assert (fetchListedTokenIds env collectionSlug (issue (GetNfts collectionSlug 200 None) st) =
            (Ok ∅, issue (GetListings collectionSlug None)
                     (issue (GetNfts collectionSlug 200 None) st))) as H2.
  { unfold fetchListedTokenIds, fetchListedTokenIds_fuel.
    erewrite paging_not_ok;
      [reflexivity
      |unfold fetch_listings; simpl; rewrite length_app; simpl; rewrite Hl; reflexivity
      |done]. }
  destruct (refresh_collection_rows_of env nftType collectionSlug st _ _ _ _ H1 H2)
    as (m & st3' & st' & _ & Hrun & Hcalls & _).
  destruct (refresh_collection_ok env nftType collectionSlug st _ _ _ _ H1 H2)
    as (m' & st3 & _ & Hrun').
  rewrite Hrun'. f_equal. simpl. rewrite Hrun' in Hrun. injection Hrun as <-.
  simpl in Hcalls. f_equal. rewrite Hcalls. simpl.
  by rewrite app_nil_r, <- app_assoc.
Qed.

(** X11: an error status from the marketplace is not a failure of the
    run.  When both endpoints answer every request with a status that is
    not ok, the run asks each endpoint once per collection, writes no
    entry, answers with success and leaves the status row idle without an
    error. *)
Theorem marketplace_errors_pass env method st :
  method ≠ "OPTIONS" →
  (∀ n slug c, ∃ r, nfts_api env n slug c = Ok r ∧ ok r = false) →
  (∀ n slug c, ∃ r, listings_api env n slug c = Ok r ∧ ok r = false) →
  ∃ st' started finished,
    handler env method st = (Ok success_response, st') ∧
    calls st' =
      calls st ++
      [UpsertMeta cacheKey (running started);
       GetNfts "mythicseed" 200 None; GetListings "mythicseed" None;
       GetNfts "ancientseed" 200 None; GetListings "ancientseed" None;
       UpsertMeta cacheKey (completed finished)] ∧
    leaderboard_entries st' = leaderboard_entries st ∧
    ∃ row,
      leaderboard_meta st' !! cacheKey = Some row ∧
      meta_status row = "idle" ∧ last_error row = None.
Proof.
  intros Hm Hnfts Hlistings.
  rewrite (handler_run env method st Hm), refresh_all_unfold.
  set (st1 := (upsert_meta (running (now env (length (calls st)))) st).2).
  destruct (Hnfts (length (calls st1)) "mythicseed" None) as (r1 & Hr1 & Hok1).
  destruct (Hlistings (length (calls st1) + 1) "mythicseed" None) as (r2 & Hr2 & Hok2).
  rewrite (refresh_collection_not_ok env Mythic "mythicseed" st1 r1 r2 Hr1 Hok1 Hr2 Hok2).
  match goal with |- context [refresh_collection env (Ancient, "ancientseed") ?s] =>
    set (st2 := s) end.
  destruct (Hnfts (length (calls st2)) "ancientseed" None) as (r3 & Hr3 & Hok3).
  destruct (Hlistings (length (calls st2) + 1) "ancientseed" None) as (r4 & Hr4 & Hok4).
  rewrite (refresh_collection_not_ok env Ancient "ancientseed" st2 r3 r4 Hr3 Hok3 Hr4 Hok4).
  eexists _, _, _. split; [reflexivity|]. subst st2 st1. simpl.
  split; [by rewrite <- !app_assoc|]. split; [done|].
  eexists. split; [apply lookup_insert_eq|]. done.
Qed.

Definition unavailable {B} : Outcome (HttpResponse B) :=
  Ok {| status := 503; text := Ok "Service Unavailable"; json := Throw (JsError "Unexpected token") |}.

Definition env_unavailable : Env :=
  {| nfts_api := λ _ _ _, unavailable;
     listings_api := λ _ _ _, unavailable;
     points_api := λ _ _ _, offline;
     now := λ n, "t" +:+ pretty n;
     arrival := λ _, 0 |}.

Lemma marketplace_errors_pass_witness :
  ∃ st',
    handler env_unavailable "POST" empty_store = (Ok success_response, st') ∧
    leaderboard_entries st' = ∅.
Proof.
  destruct (marketplace_errors_pass env_unavailable "POST" empty_store)
    as (st' & started & finished & Hrun & _ & Hentries & _).
  - discriminate.
  - intros n slug c. eexists. split; reflexivity.
  - intros n slug c. eexists. split; reflexivity.
  - exists st'. split; [exact Hrun|exact Hentries].
Defined.

End RefreshMore.

(** * More of the listings proxy *)

Module ListingsMore.
Import OpenseaListings ListingsFacts.

(** X12: the listings handler never throws.  It asks the marketplace at
    most once, and only for a truthy slug; every response carries the
    CORS headers; the status is 200, 400 or 500, or else the status of a
    marketplace response that was not ok. *)
Theorem listings_handler_answers env req asked :
  ∃ response asked',
    handler env req asked = (Ok response, asked') ∧
    (asked' = asked ∨ ∃ slug, truthy slug = true ∧ asked' = asked ++ [slug]) ∧
    (∃ more, resp_headers response = corsHeaders ++ more) ∧
    (resp_status response = 200%Z ∨ resp_status response = 400%Z ∨
     resp_status response = 500%Z ∨
     ∃ slug upstream_response,
       upstream env slug = Ok upstream_response ∧ ok upstream_response = false ∧
       resp_status response = status upstream_response).
Proof.
  unfold handler. destruct (String.eqb (method req) "OPTIONS").
  { eexists _, _. split; [reflexivity|]. split; [by left|].
    split; [by exists []|by left]. }
  unfold try_catch, bind, lift, fetch, ret.
  destruct (body req) as [parsed|e].
  2:{ eexists _, _. split; [reflexivity|]. split; [by left|].
      split; [by eexists|by right; right; left]. }
  destruct (destructure parsed "collectionSlug") as [slug|e].
  2:{ eexists _, _. split; [reflexivity|]. split; [by left|].
      split; [by eexists|by right; right; left]. }
  destruct (truthy slug) eqn:Hslug; simpl.
  2:{ eexists _, _. split; [reflexivity|]. split; [by left|].
      split; [by eexists|by right; left]. }
  destruct (upstream env slug) as [response|e] eqn:Hup.
  2:{ eexists _, _. split; [reflexivity|]. split; [right; by exists slug|].
      split; [by eexists|by right; right; left]. }
  destruct (ok response) eqn:Hok; simpl.
  2:{ destruct (text response) as [errorText|e].
      2:{ eexists _, _. split; [reflexivity|]. split; [right; by exists slug|].
          split; [by eexists|by right; right; left]. }
      unfold new_Response. destruct (refuses_status (status response)).
      { eexists _, _. split; [reflexivity|]. split; [right; by exists slug|].
        split; [by eexists|by right; right; left]. }
      eexists _, _. split; [reflexivity|]. split; [right; by exists slug|].
      split; [by eexists|]. right; right; right. by exists slug, response. }
  destruct (json response) as [data|e].
  2:{ eexists _, _. split; [reflexivity|]. split; [right; by exists slug|].
      split; [by eexists|by right; right; left]. }
  destruct (prop data "listings") as [listings|e];
    eexists _, _; (split; [reflexivity|]); (split; [right; by exists slug|]);
    (split; [by eexists|]); [by left|by right; right; left].
Qed.



End ListingsMore.

(** * More of utils/api.ts: the points cache *)

Module CacheFacts.
Import Api ApiFacts.

Lemma key_of_inj tokenId nftType tokenId' nftType' :
  key_of tokenId nftType = key_of tokenId' nftType' →
  tokenId = tokenId' ∧ nftType = nftType'.
Proof.
  unfold key_of. destruct nftType, nftType'; simpl; intros [=]; by subst.
Qed.

(** X14: the cache keys of two lookups are equal only when token id and
    type are, so a lookup never changes what the cache holds for another
    token or for the same id in the other collection. *)
Theorem fetchStakingPoints_other_key env tokenId nftType tokenId' nftType' st :
  (tokenId, nftType) ≠ (tokenId', nftType') →
  key_of tokenId nftType ≠ key_of tokenId' nftType' ∧
  pointsCache (fetchStakingPoints env tokenId nftType st).2 !! key_of tokenId' nftType' =
    pointsCache st !! key_of tokenId' nftType'.
Proof.
  intros Hne.
  assert (key_of tokenId nftType ≠ key_of tokenId' nftType') as Hkey.
  { intros H. apply key_of_inj in H as [-> ->]. done. }
  split; [done|].
  unfold fetchStakingPoints, fetchStakingPoints_start.
  destruct (pointsCache st !! key_of tokenId nftType) as [c|] eqn:Hc; [done|].
  unfold fetchStakingPoints_resume, try_catch, bind, lift, pointsCache_set, ret; simpl.
  destruct (staking env _ tokenId nftType) as [response|e]; simpl.
  - destruct (ok response); simpl.
    + destruct (json response) as [data|e]; simpl.
      * destruct (prop data "points") as [p|e]; simpl; by rewrite lookup_insert_ne.
      * by rewrite lookup_insert_ne.
    + by rewrite lookup_insert_ne.
  - by rewrite lookup_insert_ne.
Qed.

Definition empty_cache : State := {| pointsCache := ∅; requests := [] |}.

Definition env_seven : Env :=
  {| staking := λ _ _ _, answer (VObj [("points", VNum 7)]);
     parseFloat := λ _, 0%float |}.

Lemma fetchStakingPoints_other_key_witness :
  ("5", Mythic) ≠ ("5", Ancient) ∧
  pointsCache (fetchStakingPoints env_seven "5" Mythic empty_cache).2 !! "Ancient_5" = None.
Proof.
  assert (("5", Mythic) ≠ ("5", Ancient)) as Hne by discriminate.
  split; [exact Hne|].
  exact (proj2 (fetchStakingPoints_other_key env_seven "5" Mythic "5" Ancient empty_cache Hne)).
Defined.

(** No call for the key of (tokenId, nftType) is waiting. *)
Definition at_rest (tokenId : string) (nftType : NFTType) (r : Running) : Prop :=
  ∀ n, waiting r !! n ≠ Some (tokenId, nftType).

Lemma step_settled env tokenId nftType v r ev :
  pointsCache (store r) !! key_of tokenId nftType = Some v →
  at_rest tokenId nftType r →
  pointsCache (store (step env r ev)) !! key_of tokenId nftType = Some v ∧
  at_rest tokenId nftType (step env r ev) ∧
  ∃ sent back,
    requests (store (step env r ev)) = requests (store r) ++ sent ∧
    ((tokenId, nftType) ∉ sent) ∧
    returned (step env r ev) = returned r ++ back ∧
    ∀ v', (tokenId, nftType, v') ∈ back → v' = v.
Proof.
  intros Hc Hrest. destruct ev as [id ty|n]; simpl.
  - unfold fetchStakingPoints_start.
    destruct (pointsCache (store r) !! key_of id ty) as [c|] eqn:Hid; simpl.
    + split; [done|]. split; [done|].
      exists [], [(id, ty, c)]. rewrite app_nil_r.
      split; [done|]. split; [set_solver|]. split; [done|].
      intros v' Hin. apply list_elem_of_singleton in Hin. injection Hin as -> -> ->.
      congruence.
    + assert ((id, ty) ≠ (tokenId, nftType)) as Hne by (intros [= -> ->]; congruence).
      split; [done|]. split.
      * unfold at_rest; simpl. intros n.
        destruct (decide (n = length (requests (store r)))) as [->|Hn].
        -- rewrite lookup_insert_eq. congruence.
        -- rewrite lookup_insert_ne by done. apply Hrest.
      * exists [(id, ty)], []. rewrite app_nil_r.
        split; [done|]. split; [|split; [done|]].
        -- intros Hin. apply list_elem_of_singleton in Hin. congruence.
        -- intros v' Hin. by apply elem_of_nil in Hin.
  - destruct (waiting r !! n) as [[id ty]|] eqn:Hn.
    2:{ split; [done|]. split; [done|]. exists [], []. rewrite !app_nil_r.
        split; [done|]. split; [set_solver|]. split; [done|].
        intros v' Hin. by apply elem_of_nil in Hin. }
    assert ((id, ty) ≠ (tokenId, nftType)) as Hne.
    { intros Heq. apply (Hrest n). by rewrite Hn, Heq. }
    assert (key_of id ty ≠ key_of tokenId nftType) as Hkey.
    { intros H. apply key_of_inj in H as [-> ->]. done. }
    destruct (fetchStakingPoints_resume_spec env n id ty (store r)) as (w & ->). simpl.
    split; [by rewrite lookup_insert_ne|]. split.
    + unfold at_rest; simpl. intros m. destruct (decide (m = n)) as [->|Hm].
      * by rewrite lookup_delete_eq.
      * rewrite lookup_delete_ne by done. apply Hrest.
    + exists [], [(id, ty, w)]. rewrite app_nil_r.
      split; [done|]. split; [set_solver|]. split; [done|].
      intros v' Hin. apply list_elem_of_singleton in Hin. congruence.
Qed.

(** X15: once a value is cached for a token and no call for that token
    is waiting for its answer, the entry is never written again, whatever
    calls are made and whatever answers arrive afterwards, in any order:
    the cache keeps the value, no request for the token is sent, no call
    for it waits, every call for it returns the value, and so does a call
    made at the end. *)
Theorem fetchStakingPoints_forever env tokenId nftType v r events :
  pointsCache (store r) !! key_of tokenId nftType = Some v →
  at_rest tokenId nftType r →
  pointsCache (store (run env events r)) !! key_of tokenId nftType = Some v ∧
  at_rest tokenId nftType (run env events r) ∧
  (∃ sent back,
     requests (store (run env events r)) = requests (store r) ++ sent ∧
     ((tokenId, nftType) ∉ sent) ∧
     returned (run env events r) = returned r ++ back ∧
     ∀ v', (tokenId, nftType, v') ∈ back → v' = v) ∧
  fetchStakingPoints env tokenId nftType (store (run env events r)) =
    (Ok v, store (run env events r)).
Proof.
  revert r. unfold run.
  induction events as [|ev events IH]; intros r Hc Hrest; simpl.
  - split; [done|]. split; [done|]. split; [|by apply fetchStakingPoints_hit].
    exists [], []. rewrite !app_nil_r. split; [done|]. split; [set_solver|].
    split; [done|]. intros v' Hin. by apply elem_of_nil in Hin.
  - destruct (step_settled env tokenId nftType v r ev Hc Hrest)
      as (Hc1 & Hrest1 & sent1 & back1 & Hsent1 & Hno1 & Hback1 & Hv1).
    destruct (IH _ Hc1 Hrest1)
      as (Hc2 & Hrest2 & (sent2 & back2 & Hsent2 & Hno2 & Hback2 & Hv2) & Hcall).
    split; [done|]. split; [done|]. split; [|done].
    exists (sent1 ++ sent2), (back1 ++ back2).
    rewrite Hsent2, Hsent1, Hback2, Hback1, !app_assoc.
    split; [done|]. split; [set_solver|]. split; [done|].
    intros v' Hin. apply elem_of_app in Hin as [Hin|Hin]; [by apply Hv1|by apply Hv2].
Qed.

Definition seven_cached : Running :=
  {| store := {| pointsCache := {[ "Mythic_5" := VNum 7 ]}; requests := [("5", Mythic)] |};
     waiting := ∅;
     returned := [("5", Mythic, VNum 7)] |}.

Lemma fetchStakingPoints_forever_witness :
  returned (run ApiFacts.env_changing
              [Calls "6" Mythic; Calls "5" Mythic; Calls "5" Ancient; Responds 2;
               Responds 1; Calls "5" Mythic]
              seven_cached) =
    [("5", Mythic, VNum 7); ("5", Mythic, VNum 7); ("5", Ancient, VNum 9);
     ("6", Mythic, VNum 9); ("5", Mythic, VNum 7)] ∧
  pointsCache (store (run ApiFacts.env_changing
                        [Calls "6" Mythic; Calls "5" Mythic; Calls "5" Ancient; Responds 2;
                         Responds 1; Calls "5" Mythic]
                        seven_cached)) !! "Mythic_5" = Some (VNum 7).
Proof.
  split; [vm_compute; reflexivity|].
  refine (proj1 (fetchStakingPoints_forever ApiFacts.env_changing "5" Mythic (VNum 7)
                   seven_cached _ eq_refl _)).
  intros n. unfold seven_cached; simpl. by rewrite lookup_empty.
Defined.

(** X16: a lookup sends one request when its key is not cached and none
    when it is. *)
Theorem fetchStakingPoints_requests env tokenId nftType st :
  requests (fetchStakingPoints env tokenId nftType st).2 =
    match pointsCache st !! key_of tokenId nftType with
    | Some _ => requests st
    | None => requests st ++ [(tokenId, nftType)]
    end.
Proof.
  unfold fetchStakingPoints, fetchStakingPoints_start.
  destruct (pointsCache st !! key_of tokenId nftType) as [c|]; [done|].
  unfold fetchStakingPoints_resume, try_catch, bind, lift, pointsCache_set, ret; simpl.
  destruct (staking env _ tokenId nftType) as [response|e]; simpl; [|done].
  destruct (ok response); simpl; [|done].
  destruct (json response) as [data|e]; simpl; [|done].
  by destruct (prop data "points") as [p|e].
Qed.

(** X17: the lookup of the browser and the lookup of the refresh job
    give the same value for a response that failed, and for an ok response
    whose [points] is truthy. *)
Theorem lookups_agree env tokenId nftType st :
  pointsCache st !! key_of tokenId nftType = None →
  (LeaderboardRefresh.lookup_value (staking env (length (requests st)) tokenId nftType) =
     VNum 0 ∨
   ∃ response fields,
     staking env (length (requests st)) tokenId nftType = Ok response ∧
     ok response = true ∧ json response = Ok (VObj fields) ∧
     truthy (assoc "points" fields) = true) →
  (fetchStakingPoints env tokenId nftType st).1 =
    Ok (LeaderboardRefresh.lookup_value (staking env (length (requests st)) tokenId nftType)).
Proof.
  intros Hmiss Hcases.
  destruct (StakingFacts.fetchStakingPoints_miss env tokenId nftType st Hmiss) as (st' & ->).
  simpl. f_equal.
  destruct (staking env (length (requests st)) tokenId nftType) as [response|e]; [|done].
  unfold LeaderboardRefresh.lookup_value in *.
  destruct (ok response) eqn:Hok; [|done].
  destruct (json response) as [data|e] eqn:Hjson; [|done].
  destruct Hcases as [Hzero|(r & fields & [= <-] & _ & Hj & Hp)].
  - rewrite Hzero. destruct data; simpl in *; try done.
    unfold js_or. destruct (truthy (assoc "points" fields)) eqn:Ht; [|done].
    exfalso. unfold js_coalesce in Hzero.
    destruct (assoc "points" fields); simpl in *; try discriminate.
    injection Hzero as ->. vm_compute in Ht. discriminate.
  - rewrite Hjson in Hj. injection Hj as ->. simpl.
    unfold js_or, js_coalesce. rewrite Hp.
    destruct (assoc "points" fields); simpl in *; done.
Qed.

Lemma lookups_agree_witness :
  (fetchStakingPoints env_seven "5" Mythic empty_cache).1 = Ok (VNum 7) ∧
  LeaderboardRefresh.lookup_value (staking env_seven 0 "5" Mythic) = VNum 7.
Proof.
  split; [|reflexivity].
  apply (lookups_agree env_seven "5" Mythic empty_cache); [reflexivity|].
  right. eexists _, _. repeat split; reflexivity.
Defined.

End CacheFacts.

(** * More of utils/api.ts: listings and images *)

Module ApiMore.
Import Api.

(** [COLLECTION_SLUGS[nftType]] *)
Definition slug_of (nftType : NFTType) : string :=
  match nftType with
  | Mythic => "mythicseed"
  | Ancient => "ancientseed"
  end.

(** [listing.protocol_data?.parameters?.offer?.[0]?.identifierOrCriteria || null] *)
Definition getTokenId (l : OpenSeaListing) : option string :=
  let id := offered_identifier l in
  if truthy_string id then id else None.

Definition getNFTName (l : OpenSeaListing) : string :=
  match getTokenId l with
  | Some tokenId => "NFT #" +:+ tokenId
  | None => "Unknown NFT"
  end.

(** [listing.protocol_data?.parameters?.offer?.[0]?.token] *)
Definition offered_token (l : OpenSeaListing) : option string :=
  ps ← protocol_data l;
  os ← parameters ps;
  offers ← offer os;
  o ← head offers;
  Some (token o).

(** [listing.protocol_data?.parameters?.offer?.[0]?.imageUrl] *)
Definition offered_image (l : OpenSeaListing) : option string :=
  ps ← protocol_data l;
  os ← parameters ps;
  offers ← offer os;
  o ← head offers;
  imageUrl o.

Definition getOpenSeaUrl (l : OpenSeaListing) : option string :=
  let tokenId := getTokenId l in
  let contractAddress := offered_token l in
  match tokenId, contractAddress with
  | Some id, Some contract =>
      if truthy_string contractAddress
      then Some ("https://opensea.io/assets/ethereum/" +:+ contract +:+ "/" +:+ id)
      else None
  | _, _ => None
  end.

(** *** fetchNFTListings *)

(** The body of the listings endpoint, read as the source casts it:
    [data.listings] as [NFTWithMetadata[]]. *)
Record ListingsData : Type := {
  data_listings : option (list NFTWithMetadata);
}.

Record ListingsEnv : Type := {
  listings_service : nat → string → Outcome (HttpResponse ListingsData);
}.

(** The state is the list of collection slugs asked for. *)
Definition fetch_listings (env : ListingsEnv) (collectionSlug : string)
  : M (list string) (HttpResponse ListingsData) :=
  fun asked =>
    (listings_service env (length asked) collectionSlug, asked ++ [collectionSlug]).

(** The body of the [forEach]: the listing with its type and token id set. *)
Definition tag (nftType : NFTType) (l : NFTWithMetadata) : NFTWithMetadata :=
  {| listing := listing l;
     tokenId :=
       match getTokenId (listing l) with
       | Some id => Some id
       | None => tokenId l
       end;
     nftType := Some nftType;
     stakingPoints := stakingPoints l;
     cachedImageUrl := cachedImageUrl l |}.

Definition fetchNFTListings (env : ListingsEnv) (nftType : NFTType)
  : M (list string) (list NFTWithMetadata) :=
  let collectionSlug := slug_of nftType in
  try_catch
    (response <- fetch_listings env collectionSlug ;;
     if negb (ok response) then
       if (status response =? 401)%Z then lift (Throw (JsError "Invalid API Key"))
       else lift (Throw (JsError ("API Error: " +:+ pretty (status response))))
     else
       data <- lift (json response) ;;
       let listings := default [] (data_listings data) in
       ret (map (tag nftType) listings))
    (fun error => lift (Throw error)).

(** *** getImageUrl *)

(** The single-NFT endpoint: [data.nft?.image_url] and
    [data.nft?.display_image_url]. *)
Record NftDetail : Type := {
  nft_image_url : option string;
  nft_display_image_url : option string;
}.

Record ImageData : Type := { nft : option NftDetail }.

(** The endpoint asked for the [n]-th time for (contract, token id); a
    request that is aborted after 8 seconds is one that throws.  The
    runtime's [encodeURIComponent]. *)
Record ImageEnv : Type := {
  image_service : nat → string → string → Outcome (HttpResponse ImageData);
  encodeURIComponent : string → string;
}.

(** The module's globals [imageCache] and [pendingImageRequests], the
    latter with the request each pending promise waits for, and the
    requests sent so far. *)
Record ImageState : Type := {
  imageCache : gmap string string;
  pendingImageRequests : gmap string (nat * string);
  image_requests : list (string * string);
}.

Definition getPlaceholderImage (env : ImageEnv) (text : string) : string :=
  let encodedText := encodeURIComponent env text in
  "https://via.placeholder.com/300x300/667eea/ffffff?text=" +:+ encodedText.

(** What a call of [getImageUrl] returns: a promise that is resolved
    already, or the promise of the request in flight for a token. *)
Inductive ImagePromise : Type :=
  | Resolved (url : string)
  | InFlight (tokenId : string).

(** The tail of the call: no contract, no request; else the request is
    sent and its promise is registered as pending. *)
Definition request_image (env : ImageEnv) (tokenId : string) (l : OpenSeaListing)
  : ImageState → ImagePromise * ImageState :=
  fun st =>
    let contractAddress := offered_token l in
    match contractAddress, truthy_string contractAddress with
    | Some contract, true =>
        (InFlight tokenId,
         {| imageCache := imageCache st;
            pendingImageRequests :=
              <[tokenId := (length (image_requests st), contract)]>
                (pendingImageRequests st);
            image_requests := image_requests st ++ [(contract, tokenId)] |})
    | _, _ => (Resolved (getPlaceholderImage env "No Contract"), st)
    end.

(** The call, up to its return. *)
Definition getImageUrl (env : ImageEnv) (l : OpenSeaListing)
  : ImageState → ImagePromise * ImageState :=
  fun st =>
    match getTokenId l with
    | None => (Resolved (getPlaceholderImage env "No ID"), st)
    | Some tokenId =>
        match imageCache st !! tokenId with
        | Some url => (Resolved url, st)
        | None =>
            match pendingImageRequests st !! tokenId with
            | Some _ => (InFlight tokenId, st)
            | None =>
                let cachedUrl := offered_image l in
                match cachedUrl, truthy_string cachedUrl with
                | Some url, true =>
                    (Resolved url,
                     {| imageCache := <[tokenId := url]> (imageCache st);
                        pendingImageRequests := pendingImageRequests st;
                        image_requests := image_requests st |})
                | _, _ => request_image env tokenId l st
                end
            end
        end
    end.

(** [data.nft?.image_url || data.nft?.display_image_url] *)
Definition image_of (data : ImageData) : option string :=
  let first := nft data ≫= nft_image_url in
  if truthy_string first then first else nft data ≫= nft_display_image_url.

(** The rest of the request's promise, run when the response is there:
    the URL it resolves with, cached, and the pending entry removed. *)
Definition settle_image (env : ImageEnv) (tokenId : string)
  : ImageState → option (string * ImageState) :=
  fun st =>
    match pendingImageRequests st !! tokenId with
    | None => None
    | Some (n, contract) =>
        let found :=
          match image_service env n contract tokenId with
          | Ok response =>
              if ok response then
                match json response with
                | Ok data =>
                    if truthy_string (image_of data) then image_of data else None
                | Throw _ => None
                end
              else None
          | Throw _ => None
          end in
        let url :=
          match found with
          | Some imageUrl => imageUrl
          | None => getPlaceholderImage env ("NFT #" +:+ tokenId)
          end in
        Some (url,
              {| imageCache := <[tokenId := url]> (imageCache st);
                 pendingImageRequests := delete tokenId (pendingImageRequests st);
                 image_requests := image_requests st |})
    end.

End ApiMore.

Module ApiMoreFacts.
Import Api ApiMore.

(** ** Names and links *)

(** X18: a token id is never empty; a listing is named "Unknown NFT"
    exactly when it has no token id; and it has an OpenSea link exactly
    when it has a token id and a non-empty contract address, the link
    being built from the two. *)
Theorem names_and_links l :
  (∀ id, getTokenId l = Some id → id ≠ "") ∧
  (getNFTName l = "Unknown NFT" ↔ getTokenId l = None) ∧
  (∀ url, getOpenSeaUrl l = Some url ↔
     ∃ id contract,
       getTokenId l = Some id ∧ offered_token l = Some contract ∧ contract ≠ "" ∧
       url = "https://opensea.io/assets/ethereum/" +:+ contract +:+ "/" +:+ id).
Proof.
  split; [|split].
  - unfold getTokenId. intros id.
    destruct (offered_identifier l) as [id'|]; simpl; [|done].
    destruct (String.eqb_spec id' ""); simpl; [done|]. by intros [= <-].
  - unfold getNFTName. destruct (getTokenId l) as [id|]; [|done].
    split; [|done]. simpl. discriminate.
  - intros url. unfold getOpenSeaUrl.
    destruct (getTokenId l) as [id|].
    2:{ split; [done|]. by intros (? & ? & ? & _). }
    destruct (offered_token l) as [contract|]; simpl.
    2:{ split; [done|]. by intros (? & ? & _ & ? & _). }
    destruct (String.eqb_spec contract "") as [->|Hne]; simpl.
    + split; [done|]. by intros (? & ? & _ & [= <-] & ? & _).
    + split.
      * intros [= <-]. by exists id, contract.
      * by intros (? & ? & [= <-] & [= <-] & _ & ->).
Qed.

(** ** fetchNFTListings *)

Lemma fetchNFTListings_run env nftType asked :
  fetchNFTListings env nftType asked =
    (match listings_service env (length asked) (slug_of nftType) with
     | Throw error => Throw error
     | Ok response =>
         if ok response then
           match json response with
           | Throw error => Throw error
           | Ok data => Ok (map (tag nftType) (default [] (data_listings data)))
           end
         else if (status response =? 401)%Z then Throw (JsError "Invalid API Key")
         else Throw (JsError ("API Error: " +:+ pretty (status response)))
     end,
     asked ++ [slug_of nftType]).
Proof.
  unfold fetchNFTListings, try_catch, bind, fetch_listings, lift, ret.
  destruct (listings_service env (length asked) (slug_of nftType)) as [response|e]; [|done].
  destruct (ok response); simpl.
  - by destruct (json response).
  - by destruct (status response =? 401)%Z.
Qed.

(** X19: [fetchNFTListings] sends one request, for the slug of the
    type.  What the request or the parsing of the body throws is thrown
    on unchanged; a 401 throws "Invalid API Key" and any other status
    that is not ok throws "API Error: <status>", without the body being
    looked at; and it returns only on an ok response whose body parses. *)
Theorem fetchNFTListings_outcomes env nftType asked :
  ∃ outcome,
    fetchNFTListings env nftType asked = (outcome, asked ++ [slug_of nftType]) ∧
    (∀ error,
       listings_service env (length asked) (slug_of nftType) = Throw error →
       outcome = Throw error) ∧
    (∀ response,
       listings_service env (length asked) (slug_of nftType) = Ok response →
       ok response = false →
       outcome = Throw (JsError (if (status response =? 401)%Z then "Invalid API Key"
                                 else "API Error: " +:+ pretty (status response)))) ∧
    (∀ response error,
       listings_service env (length asked) (slug_of nftType) = Ok response →
       ok response = true → json response = Throw error →
       outcome = Throw error) ∧
    (∀ listings,
       outcome = Ok listings →
       ∃ response data,
         listings_service env (length asked) (slug_of nftType) = Ok response ∧
         ok response = true ∧ json response = Ok data).
Proof.
  eexists. split; [apply fetchNFTListings_run|].
  destruct (listings_service env (length asked) (slug_of nftType)) as [response|e].
  2:{ repeat split; try done. by intros error [= ->]. }
  split; [done|]. split; [|split].
  - intros ? [= <-] ->. by destruct (status response =? 401)%Z.
  - intros ? error [= <-] -> ->. done.
  - intros listings. destruct (ok response) eqn:Hok.
    + destruct (json response) as [data|e] eqn:Hjson; [|done].
      intros _. by exists response, data.
    + by destruct (status response =? 401)%Z.
Qed.

(** X20: the listings returned are those of the response, as many and
    in the same order; each has the type asked for, the marketplace
    listing it had, and for token id the offered identifier when there is
    one (else the one it came with). *)
Theorem fetchNFTListings_tags env nftType asked response data :
  listings_service env (length asked) (slug_of nftType) = Ok response →
  ok response = true → json response = Ok data →
  ∃ listings,
    fetchNFTListings env nftType asked = (Ok listings, asked ++ [slug_of nftType]) ∧
    Forall2
      (λ before after,
         listing after = listing before ∧
         Api.nftType after = Some nftType ∧
         stakingPoints after = stakingPoints before ∧
         tokenId after =
           match getTokenId (listing before) with
           | Some id => Some id
           | None => tokenId before
           end)
      (default [] (data_listings data)) listings.
Proof.
  intros Hres Hok Hjson. rewrite fetchNFTListings_run, Hres, Hok, Hjson.
  eexists. split; [reflexivity|].
  apply Forall2_fmap_r, Forall_Forall2_diag, Forall_forall. by intros l _.
Qed.

Definition offering (id contract : string) : OpenSeaListing :=
  {| price := None;
     protocol_data :=
       Some {| parameters :=
         Some {| offer :=
           Some [{| identifierOrCriteria := id; token := contract; imageUrl := None |}] |} |} |}.

Definition untagged (l : OpenSeaListing) : NFTWithMetadata :=
  {| listing := l; tokenId := None; nftType := None;
     stakingPoints := None; cachedImageUrl := None |}.

Definition env_one_listing : ListingsEnv :=
  {| listings_service := λ _ _,
       answer {| data_listings := Some [untagged (offering "12" "0xseed")] |} |}.

Lemma fetchNFTListings_tags_witness :
  fetchNFTListings env_one_listing Ancient [] =
    (Ok [{| listing := offering "12" "0xseed"; tokenId := Some "12";
            nftType := Some Ancient; stakingPoints := None; cachedImageUrl := None |}],
     ["ancientseed"]) ∧
  ∃ listings,
    fetchNFTListings env_one_listing Ancient [] = (Ok listings, ["ancientseed"]) ∧
    length listings = 1.
Proof.
  split; [reflexivity|].
  destruct (fetchNFTListings_tags env_one_listing Ancient [] _ _ eq_refl eq_refl eq_refl)
    as (listings & Hrun & Htags).
  exists listings. split; [exact Hrun|].
  by apply Forall2_length in Htags.
Defined.

(** ** getImageUrl *)

Lemma getImageUrl_in_flight env l st id st1 :
  getImageUrl env l st = (InFlight id, st1) →
  getTokenId l = Some id ∧
  imageCache st1 !! id = None ∧
  ∃ n contract, pendingImageRequests st1 !! id = Some (n, contract).
Proof.
  unfold getImageUrl. destruct (getTokenId l) as [tokenId|]; [|done].
  destruct (imageCache st !! tokenId) as [url|] eqn:Hc; [done|].
  destruct (pendingImageRequests st !! tokenId) as [[n contract]|] eqn:Hp.
  { intros [= <- <-]. split; [done|]. split; [done|]. by exists n, contract. }
  destruct (offered_image l) as [url|]; simpl.
  - destruct (negb (url =? "")%string); [done|].
    unfold request_image. destruct (offered_token l) as [contract|]; simpl; [|done].
    destruct (negb (contract =? "")%string); [|done].
    intros [= <- <-]. simpl. split; [done|]. split; [done|].
    eexists _, _. apply lookup_insert_eq.
  - unfold request_image. destruct (offered_token l) as [contract|]; simpl; [|done].
    destruct (negb (contract =? "")%string); [|done].
    intros [= <- <-]. simpl. split; [done|]. split; [done|].
    eexists _, _. apply lookup_insert_eq.
Qed.

(** X21: at most one request per token.  While the request for a token
    is in flight, a further call for that token gets the same promise and
    sends nothing; the request always settles, with a URL that is cached
    and with the pending entry removed; and from then on every call for
    that token gets that URL at once. *)
Theorem image_requested_once env l l' id st st1 :
  getTokenId l' = Some id →
  getImageUrl env l st = (InFlight id, st1) →
  getImageUrl env l' st1 = (InFlight id, st1) ∧
  ∃ url st2,
    settle_image env id st1 = Some (url, st2) ∧
    imageCache st2 !! id = Some url ∧
    pendingImageRequests st2 !! id = None ∧
    image_requests st2 = image_requests st1 ∧
    getImageUrl env l' st2 = (Resolved url, st2).
Proof.
  intros Hid Hcall.
  apply getImageUrl_in_flight in Hcall as (_ & Hc & n & contract & Hp).
  split.
  { unfold getImageUrl. by rewrite Hid, Hc, Hp. }
  unfold settle_image. rewrite Hp.
  eexists _, _. split; [reflexivity|]. simpl.
  split; [apply lookup_insert_eq|]. split; [apply lookup_delete_eq|]. split; [done|].
  unfold getImageUrl. rewrite Hid. simpl. by rewrite lookup_insert_eq.
Qed.

Definition no_images : ImageState :=
  {| imageCache := ∅; pendingImageRequests := ∅; image_requests := [] |}.

Definition env_image : ImageEnv :=
  {| image_service := λ _ _ _,
       answer {| nft := Some {| nft_image_url := None;
                                nft_display_image_url := Some "https://img.example/12.png" |} |};
     encodeURIComponent := λ s, s |}.

Lemma image_requested_once_witness :
  getImageUrl env_image (offering "12" "0xseed") no_images =
    (InFlight "12",
     {| imageCache := ∅;
        pendingImageRequests := {[ "12" := (0, "0xseed") ]};
        image_requests := [("0xseed", "12")] |}) ∧
  ∃ url st2,
    settle_image env_image "12" (getImageUrl env_image (offering "12" "0xseed") no_images).2 =
      Some (url, st2) ∧
    getImageUrl env_image (offering "12" "") st2 = (Resolved url, st2).
Proof.
  split; [reflexivity|].
  destruct (image_requested_once env_image (offering "12" "0xseed") (offering "12" "")
              "12" no_images _ eq_refl eq_refl)
    as (_ & url & st2 & Hsettle & _ & _ & _ & Hlater).
  exists url, st2. split; [exact Hsettle|exact Hlater].
Defined.

Example settle_image_display_url :
  settle_image env_image "12" (getImageUrl env_image (offering "12" "0xseed") no_images).2 =
    Some ("https://img.example/12.png",
          {| imageCache := {[ "12" := "https://img.example/12.png" ]};
             pendingImageRequests := ∅;
             image_requests := [("0xseed", "12")] |}).
Proof. vm_compute. reflexivity. Qed.

(** What the two maps and the log keep true of each other. *)
Definition image_inv (st : ImageState) : Prop :=
  (∀ id url, imageCache st !! id = Some url →
             url ≠ "" ∧ pendingImageRequests st !! id = None) ∧
  (∀ id n contract,
     pendingImageRequests st !! id = Some (n, contract) →
     image_requests st !! n = Some (contract, id)).

Lemma placeholder_not_empty env text : getPlaceholderImage env text ≠ "".
Proof. unfold getPlaceholderImage. simpl. discriminate. Qed.

Lemma request_image_inv env id l st :
  image_inv st → imageCache st !! id = None →
  image_inv (request_image env id l st).2.
Proof.
  intros [Hcache Hpending] Hc. unfold request_image.
  destruct (offered_token l) as [contract|]; simpl; [|done].
  destruct (negb (contract =? "")%string); [|done].
  split; simpl.
  - intros id' url Hurl. destruct (Hcache _ _ Hurl) as [Hne Hp]. split; [done|].
    rewrite lookup_insert_ne; [done|]. intros ->. congruence.
  - intros id' n c Hp. destruct (decide (id = id')) as [<-|Hne].
    + rewrite lookup_insert_eq in Hp. injection Hp as <- <-.
      by rewrite lookup_app_r, Nat.sub_diag.
    + rewrite lookup_insert_ne in Hp by done.
      apply lookup_app_l_Some. by apply Hpending.
Qed.

Lemma getImageUrl_inv env l st :
  image_inv st → image_inv (getImageUrl env l st).2.
Proof.
  intros Hinv. unfold getImageUrl. destruct (getTokenId l) as [id|]; [|done].
  destruct (imageCache st !! id) as [url|] eqn:Hc; [done|].
  destruct (pendingImageRequests st !! id) as [[n contract]|] eqn:Hp; [done|].
  destruct (offered_image l) as [url|]; simpl; [|by apply request_image_inv].
  destruct (String.eqb_spec url "") as [|Hne]; simpl; [by apply request_image_inv|].
  destruct Hinv as [Hcache Hpending]. split; simpl; [|done].
  intros id' url' Hurl. destruct (decide (id = id')) as [<-|Hid].
  - rewrite lookup_insert_eq in Hurl. by injection Hurl as <-.
  - rewrite lookup_insert_ne in Hurl by done. by apply Hcache.
Qed.

Lemma settle_image_inv env id st url st' :
  image_inv st → settle_image env id st = Some (url, st') → image_inv st'.
Proof.
  intros Hinv. unfold settle_image.
  destruct (pendingImageRequests st !! id) as [[n contract]|] eqn:Hp; [|done].
  intros [= Hurl <-]. destruct Hinv as [Hcache Hpending]. split; simpl.
  - intros id' url' Hurl'. destruct (decide (id = id')) as [<-|Hid].
    + rewrite lookup_insert_eq in Hurl'. injection Hurl' as <-.
      split; [|apply lookup_delete_eq]. subst url.
      destruct (image_service env n contract id) as [response|e];
        [|apply placeholder_not_empty].
      destruct (ok response); [|apply placeholder_not_empty].
      destruct (json response) as [data|e]; [|apply placeholder_not_empty].
      destruct (image_of data) as [u|]; simpl; [|apply placeholder_not_empty].
      destruct (String.eqb_spec u ""); simpl; [apply placeholder_not_empty|done].
    + rewrite lookup_insert_ne in Hurl' by done.
      destruct (Hcache _ _ Hurl') as [? ?]. split; [done|].
      by rewrite lookup_delete_ne.
  - intros id' n' c Hp'. destruct (decide (id = id')) as [<-|Hid].
    + by rewrite lookup_delete_eq in Hp'.
    + rewrite lookup_delete_ne in Hp' by done. by apply Hpending.
Qed.

(** X22: a token is never both cached and pending, the request of every
    pending token is in the log, and no cached URL is empty: calls of
    [getImageUrl] and settling requests keep this true. *)
Theorem image_inv_kept env st :
  image_inv st →
  (∀ l, image_inv (getImageUrl env l st).2) ∧
  (∀ id url st', settle_image env id st = Some (url, st') → image_inv st').
Proof.
  intros Hinv. split.
  - intros l. by apply getImageUrl_inv.
  - intros id url st'. by apply settle_image_inv.
Qed.

Lemma no_images_inv : image_inv no_images.
Proof. split; intros *; simpl; by rewrite lookup_empty. Qed.

Lemma image_inv_kept_witness :
  image_inv no_images ∧
  image_inv (getImageUrl env_image (offering "12" "0xseed") no_images).2.
Proof.
  pose proof no_images_inv as Hinv.
  split; [exact Hinv|].
  exact (proj1 (image_inv_kept env_image no_images Hinv) (offering "12" "0xseed")).
Defined.

Lemma settle_image_caches env id st url st' :
  settle_image env id st = Some (url, st') → imageCache st' !! id = Some url.
Proof.
  unfold settle_image.
  destruct (pendingImageRequests st !! id) as [[n contract]|]; [|done].
  intros [= <- <-]. simpl. apply lookup_insert_eq.
Qed.

(** X23: no URL handed out is empty: not the one a call resolves with
    at once, not the one a request settles with. *)
Theorem image_urls_not_empty env st :
  image_inv st →
  (∀ l url st', getImageUrl env l st = (Resolved url, st') → url ≠ "") ∧
  (∀ id url st', settle_image env id st = Some (url, st') → url ≠ "").
Proof.
  intros Hinv. split.
  - intros l url st'. unfold getImageUrl.
    destruct (getTokenId l) as [id|];
      [|intros [= <- _]; apply placeholder_not_empty].
    destruct (imageCache st !! id) as [cached|] eqn:Hc.
    { intros [= <- _]. by apply (proj1 Hinv) in Hc as [? _]. }
    destruct (pendingImageRequests st !! id) as [[n contract]|]; [done|].
    assert (∀ r, request_image env id l st = (Resolved url, r) → url ≠ "") as Hreq.
    { intros r. unfold request_image.
      destruct (offered_token l) as [contract|]; simpl;
        [|intros [= <- _]; apply placeholder_not_empty].
      destruct (negb (contract =? "")%string); [done|].
      intros [= <- _]. apply placeholder_not_empty. }
    destruct (offered_image l) as [u|]; simpl; [|apply Hreq].
    destruct (String.eqb_spec u "") as [|Hne]; simpl; [apply Hreq|].
    by intros [= <- _].
  - intros id url st' Hsettle.
    destruct (settle_image_inv env id st url st' Hinv Hsettle) as [Hcache _].
    apply (Hcache id url). by eapply settle_image_caches.
Qed.

Lemma image_urls_not_empty_witness :
  image_inv no_images ∧
  getImageUrl env_image (offering "" "0xseed") no_images =
    (Resolved "https://via.placeholder.com/300x300/667eea/ffffff?text=No ID", no_images) ∧
  "https://via.placeholder.com/300x300/667eea/ffffff?text=No ID" ≠ "".
Proof.
  pose proof no_images_inv as Hinv.
  split; [exact Hinv|]. split; [reflexivity|].
  exact (proj1 (image_urls_not_empty env_image no_images Hinv)
           (offering "" "0xseed") _ no_images eq_refl).
Defined.

End ApiMoreFacts.

(** * The leaderboard page: search, ranks and the listed-ids cache *)

Module LeaderboardPage.

Record LeaderboardNFT : Type := {
  tokenId : string;
  nftType : NFTType;
  points : float;
  imageUrl : option string;
  openseaUrl : option string;
  isListed : bool;
}.

(** The runtime's [String.prototype.trim] and [toLowerCase]. *)
Record Strings : Type := {
  trim : string → string;
  toLowerCase : string → string;
}.

(** [s.includes(sub)] *)
Fixpoint includes (s sub : string) : bool :=
  String.prefix sub s ||
  match s with
  | EmptyString => false
  | String _ s' => includes s' sub
  end.

(** [l.findIndex(p)], with [None] for -1 *)
Fixpoint findIndex {A} (p : A → bool) (l : list A) : option nat :=
  match l with
  | [] => None
  | x :: l' => if p x then Some 0 else S <$> findIndex p l'
  end.

(** [a === b] on the two type names *)
Definition same_type (a b : NFTType) : bool :=
  match a, b with
  | Mythic, Mythic | Ancient, Ancient => true
  | _, _ => false
  end.

(** [!searchQuery.trim()] *)
Definition blank (env : Strings) (searchQuery : string) : bool :=
  String.eqb (trim env searchQuery) "".

Definition filteredNFTs (env : Strings) (allNFTs : list LeaderboardNFT)
    (searchQuery : string) : list LeaderboardNFT :=
  if blank env searchQuery then allNFTs
  else filter (λ nft, includes (toLowerCase env (tokenId nft))
                               (toLowerCase env searchQuery) = true) allNFTs.

Definition searchedNFTPosition (env : Strings) (allNFTs : list LeaderboardNFT)
    (searchQuery : string) : option nat :=
  if blank env searchQuery then None
  else
    match findIndex (λ nft, String.eqb (tokenId nft) (trim env searchQuery)) allNFTs with
    | Some exactMatch => Some (exactMatch + 1)
    | None => None
    end.

(** [allNFTs.findIndex(...) + 1]: 0 when nothing is found. *)
Definition globalRank (allNFTs : list LeaderboardNFT) (nft : LeaderboardNFT) : nat :=
  match findIndex (λ n, String.eqb (tokenId n) (tokenId nft)
                        && same_type (nftType n) (nftType nft)) allNFTs with
  | Some i => i + 1
  | None => 0
  end.

(** [searchQuery.trim() && nft.tokenId.includes(searchQuery.trim())], as
    the condition of the row's class. *)
Definition isHighlighted (env : Strings) (searchQuery : string)
    (nft : LeaderboardNFT) : bool :=
  negb (blank env searchQuery) && includes (tokenId nft) (trim env searchQuery).

(** ** fetchListedNFTs (src/pages/Leaderboard.tsx) *)

(** What [supabase.functions.invoke('opensea-listings', ...)] resolves
    with: [data] with its [listings], whose entries are listings or null,
    and [error]. *)
Record InvokeData : Type := {
  listings : option (list (option OpenSeaListing));
}.

Record InvokeResult : Type := {
  data : option InvokeData;
  error : option Exn;
}.

Record Env : Type := {
  invoke : nat → string → Outcome InvokeResult;
}.

(** The module's global [LISTED_NFTS_CACHE] and the slugs the function
    was invoked for. *)
Record State : Type := {
  LISTED_NFTS_CACHE : gmap string (gset string);
  invocations : list string;
}.

Definition functions_invoke (env : Env) (collectionSlug : string)
  : M State InvokeResult :=
  fun st =>
    (invoke env (length (invocations st)) collectionSlug,
     {| LISTED_NFTS_CACHE := LISTED_NFTS_CACHE st;
        invocations := invocations st ++ [collectionSlug] |}).

(** The body of the [forEach]; reading [protocol_data] of null throws. *)
Definition add_listing (listedIds : gset string) (listing : option OpenSeaListing)
  : Outcome (gset string) :=
  match listing with
  | None => Throw (JsError "Cannot read properties of null (reading 'protocol_data')")
  | Some l =>
      let tokenId := offered_identifier l in
      match tokenId, truthy_string tokenId with
      | Some id, true => Ok ({[ id ]} ∪ listedIds)
      | _, _ => Ok listedIds
      end
  end.

Fixpoint forEach_add (ls : list (option OpenSeaListing)) (listedIds : gset string)
  : Outcome (gset string) :=
  match ls with
  | [] => Ok listedIds
  | listing :: rest =>
      match add_listing listedIds listing with
      | Ok listedIds' => forEach_add rest listedIds'
      | Throw e => Throw e
      end
  end.

Definition cache_set (collectionSlug : string) (listedIds : gset string)
  : M State unit :=
  fun st =>
    (Ok tt,
     {| LISTED_NFTS_CACHE := <[collectionSlug := listedIds]> (LISTED_NFTS_CACHE st);
        invocations := invocations st |}).

Definition fetchListedNFTs (env : Env) (collectionSlug : string)
  : M State (gset string) :=
  fun st =>
    match LISTED_NFTS_CACHE st !! collectionSlug with
    | Some cached => (Ok cached, st)
    | None =>
        try_catch
          (r <- functions_invoke env collectionSlug ;;
           match error r with
           | Some e => lift (Throw e)
           | None =>
               let ls := default [] (data r ≫= listings) in
               listedIds <- lift (forEach_add ls ∅) ;;
               _ <- cache_set collectionSlug listedIds ;;
               ret listedIds
           end)
          (fun _ => ret ∅) st
    end.

End LeaderboardPage.

Module PageFacts.
Import LeaderboardPage.

Lemma prefix_refl s : String.prefix s s = true.
Proof.
  induction s as [|a s IH]; simpl; [done|].
  destruct (Ascii.ascii_dec a a); [done|congruence].
Qed.

Lemma includes_refl s : includes s s = true.
Proof. destruct s; simpl; [done|]. rewrite prefix_refl. by destruct (Ascii.ascii_dec _ _). Qed.

Lemma same_type_eq a b : same_type a b = true ↔ a = b.
Proof. by destruct a, b. Qed.

Lemma findIndex_Some {A} (p : A → bool) l i :
  findIndex p l = Some i ↔
  (∃ x, l !! i = Some x ∧ p x = true) ∧
  (∀ j y, j < i → l !! j = Some y → p y = false).
Proof.
  revert i. induction l as [|x l IH]; intros i; simpl.
  { split; [done|]. by intros [(? & ? & _) _]. }
  destruct (p x) eqn:Hp.
  - split.
    + intros [= <-]. split; [by exists x|]. intros j y Hj. lia.
    + intros [(y & Hy & Hpy) Hfirst]. destruct i as [|i]; [done|].
      specialize (Hfirst 0 x ltac:(lia) eq_refl). congruence.
  - split.
    + intros Hi. apply fmap_Some in Hi as (i' & Hi' & ->).
      apply IH in Hi' as [Hx Hfirst]. split; [done|].
      intros [|j] y Hj; simpl; [by intros [= <-]|].
      apply Hfirst. lia.
    + intros [(y & Hy & Hpy) Hfirst]. destruct i as [|i].
      { simpl in Hy. injection Hy as ->. congruence. }
      simpl in Hy. apply fmap_Some. exists i. split; [|done].
      apply IH. split; [by exists y|].
      intros j z Hj Hz. apply (Hfirst (S j) z); [lia|done].
Qed.

Lemma findIndex_None {A} (p : A → bool) l :
  findIndex p l = None ↔ ∀ x, x ∈ l → p x = false.
Proof.
  induction l as [|x l IH]; simpl.
  { split; [|done]. intros _ x Hx. by apply elem_of_nil in Hx. }
  destruct (p x) eqn:Hp.
  - split; [done|]. intros Hall. specialize (Hall x ltac:(left)). congruence.
  - rewrite fmap_None, IH. split.
    + intros Hall y Hy. apply elem_of_cons in Hy as [->|Hy]; [done|by apply Hall].
    + intros Hall y Hy. apply Hall. by right.
Qed.

Lemma filteredNFTs_subset env allNFTs q nft :
  nft ∈ filteredNFTs env allNFTs q → nft ∈ allNFTs.
Proof.
  unfold filteredNFTs. destruct (blank env q); [done|].
  rewrite list_elem_of_filter. tauto.
Qed.

(** ** Ranks *)

(** X24: every row the table displays gets a rank between 1 and the
    number of seeds, never 0, and the rank is the position of the first
    seed with that row's token id and type. *)
Theorem displayed_rank env allNFTs searchQuery nft :
  nft ∈ filteredNFTs env allNFTs searchQuery →
  1 ≤ globalRank allNFTs nft ≤ length allNFTs ∧
  ∃ row,
    allNFTs !! (globalRank allNFTs nft - 1) = Some row ∧
    tokenId row = tokenId nft ∧ nftType row = nftType nft ∧
    ∀ j other, j < globalRank allNFTs nft - 1 → allNFTs !! j = Some other →
               ¬ (tokenId other = tokenId nft ∧ nftType other = nftType nft).
Proof.
  intros Hin%filteredNFTs_subset. unfold globalRank.
  set (p := λ n, _).
  destruct (findIndex p allNFTs) as [i|] eqn:Hi.
  2:{ rewrite findIndex_None in Hi. specialize (Hi nft Hin). subst p. simpl in Hi.
      rewrite String.eqb_refl in Hi. simpl in Hi.
      by rewrite (proj2 (same_type_eq _ _) eq_refl) in Hi. }
  apply findIndex_Some in Hi as [(row & Hrow & Hp) Hfirst].
  replace (i + 1 - 1) with i by lia.
  split; [apply lookup_lt_Some in Hrow; lia|].
  exists row. subst p. simpl in *.
  apply andb_true_iff in Hp as [Hid%String.eqb_eq Hty%same_type_eq].
  repeat split; try done.
  intros j other Hj Hother [Hid' Hty']. specialize (Hfirst j other Hj Hother).
  rewrite Hid', String.eqb_refl, (proj2 (same_type_eq _ _) Hty') in Hfirst. done.
Qed.

Definition seed_row (id : string) (t : NFTType) : LeaderboardNFT :=
  {| tokenId := id; nftType := t; points := 0%float;
     imageUrl := None; openseaUrl := None; isListed := false |}.

Definition digits_only : Strings := {| trim := λ s, s; toLowerCase := λ s, s |}.

Lemma displayed_rank_witness :
  globalRank [seed_row "7" Mythic; seed_row "12" Ancient] (seed_row "12" Ancient) = 2 ∧
  1 ≤ globalRank [seed_row "7" Mythic; seed_row "12" Ancient] (seed_row "12" Ancient) ≤ 2.
Proof.
  split; [reflexivity|].
  refine (proj1 (displayed_rank digits_only
                   [seed_row "7" Mythic; seed_row "12" Ancient] "2"
                   (seed_row "12" Ancient) _)).
  vm_compute. apply list_elem_of_here.
Defined.

(** X25: when no two seeds share token id and type, the rank of a seed
    is its position in the list, counted from 1. *)
Theorem rank_is_position allNFTs i nft :
  NoDup (map (λ n, (tokenId n, nftType n)) allNFTs) →
  allNFTs !! i = Some nft →
  globalRank allNFTs nft = i + 1.
Proof.
  intros Hnodup Hi. unfold globalRank.
  set (p := λ n, _).
  assert (findIndex p allNFTs = Some i) as ->; [|done].
  apply findIndex_Some. split.
  { exists nft. split; [done|]. subst p. simpl.
    by rewrite String.eqb_refl, (proj2 (same_type_eq _ _) eq_refl). }
  intros j other Hj Hother. subst p. simpl.
  destruct (_ && _) eqn:Hp; [|done].
  apply andb_true_iff in Hp as [Hid%String.eqb_eq Hty%same_type_eq].
  assert (j = i); [|lia].
  eapply (NoDup_lookup _ j i (tokenId nft, nftType nft) Hnodup).
  - change (map ?f ?l) with (f <$> l). rewrite list_lookup_fmap, Hother. simpl. by rewrite Hid, Hty.
  - change (map ?f ?l) with (f <$> l). by rewrite list_lookup_fmap, Hi.
Qed.

Lemma rank_is_position_witness :
  globalRank [seed_row "7" Mythic; seed_row "7" Ancient] (seed_row "7" Ancient) = 2.
Proof.
  apply (rank_is_position [seed_row "7" Mythic; seed_row "7" Ancient] 1).
  - simpl. repeat constructor; set_solver.
  - reflexivity.
Defined.

(** Two rows with the same token id and type are given the same rank. *)
Example duplicate_rows_share_rank :
  map (globalRank [seed_row "7" Mythic; seed_row "7" Mythic])
      [seed_row "7" Mythic; seed_row "7" Mythic] = [1; 1].
Proof. reflexivity. Qed.

(** ** Search *)

(** X26: when the search box shows a rank, the seed at that rank has
    the trimmed query as its token id, its row shows the same rank and is
    highlighted; and it is among the displayed rows when the query has
    no surrounding white space. *)
Theorem search_badge env allNFTs searchQuery r :
  searchedNFTPosition env allNFTs searchQuery = Some r →
  1 ≤ r ∧
  ∃ nft,
    allNFTs !! (r - 1) = Some nft ∧
    tokenId nft = trim env searchQuery ∧
    globalRank allNFTs nft = r ∧
    isHighlighted env searchQuery nft = true ∧
    (trim env searchQuery = searchQuery → nft ∈ filteredNFTs env allNFTs searchQuery).
Proof.
  unfold searchedNFTPosition, isHighlighted, filteredNFTs.
  destruct (blank env searchQuery) eqn:Hblank; [done|].
  destruct (findIndex _ allNFTs) as [i|] eqn:Hi; [|done].
  intros [= <-]. split; [lia|].
  apply findIndex_Some in Hi as [(nft & Hnft & Hid%String.eqb_eq) Hfirst].
  replace (i + 1 - 1) with i by lia.
  exists nft. split; [done|]. split; [done|]. split; [|split].
  - unfold globalRank. set (p := λ n, _).
    assert (findIndex p allNFTs = Some i) as ->; [|done].
    apply findIndex_Some. split.
    { exists nft. split; [done|]. subst p. simpl.
      by rewrite String.eqb_refl, (proj2 (same_type_eq _ _) eq_refl). }
    intros j other Hj Hother. subst p. simpl.
    rewrite Hid, (Hfirst j other Hj Hother). done.
  - simpl. rewrite <- Hid. apply includes_refl.
  - intros Hclean. apply list_elem_of_filter. split.
    + rewrite Hid, Hclean. apply includes_refl.
    + by eapply list_elem_of_lookup_2.
Qed.

Lemma search_badge_witness :
  searchedNFTPosition digits_only [seed_row "7" Mythic; seed_row "12" Ancient] "12" = Some 2 ∧
  ∃ nft,
    [seed_row "7" Mythic; seed_row "12" Ancient] !! 1 = Some nft ∧
    globalRank [seed_row "7" Mythic; seed_row "12" Ancient] nft = 2.
Proof.
  split; [reflexivity|].
  destruct (search_badge digits_only [seed_row "7" Mythic; seed_row "12" Ancient] "12" 2 eq_refl)
    as (_ & nft & Hnft & _ & Hrank & _).
  exists nft. split; [exact Hnft|exact Hrank].
Defined.

(** A query with white space around the id: the box shows the rank of
    seed 12, and the table shows no row, as the filter does not trim. *)
Definition drop_spaces : string → string :=
  fix go s :=
    match s with
    | String a s' => if Ascii.eqb a Ascii.Space then go s' else s
    | EmptyString => s
    end.

Definition spaces_trimmed : Strings :=
  {| trim := λ s, String.rev (drop_spaces (String.rev (drop_spaces s)));
     toLowerCase := λ s, s |}.

Example padded_query :
  searchedNFTPosition spaces_trimmed [seed_row "7" Mythic; seed_row "12" Ancient] " 12 "
    = Some 2 ∧
  filteredNFTs spaces_trimmed [seed_row "7" Mythic; seed_row "12" Ancient] " 12 " = [].
Proof. split; reflexivity. Qed.

(** ** fetchListedNFTs *)

(** The ids [forEach] gathers. *)
Lemma forEach_add_ok ls acc ids :
  forEach_add ls acc = Ok ids →
  ∀ id, id ∈ ids ↔
        id ∈ acc ∨ (id ≠ "" ∧ ∃ l, Some l ∈ ls ∧ offered_identifier l = Some id).
Proof.
  revert acc. induction ls as [|listing ls IH]; intros acc; simpl.
  { intros [= <-] id. split; [by left|]. intros [?|(_ & l & Hl & _)]; [done|].
    by apply elem_of_nil in Hl. }
  destruct listing as [l|]; simpl; [|done].
  destruct (offered_identifier l) as [id'|] eqn:Hid'; simpl.
  - destruct (String.eqb_spec id' "") as [->|Hne]; simpl.
    + intros Hrest id. rewrite (IH _ Hrest). split.
      * intros [?|(Hne & l' & Hl' & Hid)]; [by left|].
        right. split; [done|]. exists l'. split; [by right|done].
      * intros [?|(Hne & l' & Hl' & Hid)]; [by left|].
        apply elem_of_cons in Hl' as [[= ->]|Hl']; [congruence|].
        right. split; [done|]. by exists l'.
    + intros Hrest id. rewrite (IH _ Hrest). split.
      * intros [Hin|(Hne' & l' & Hl' & Hid)].
        -- apply elem_of_union in Hin as [->%elem_of_singleton|?]; [|by left].
           right. split; [done|]. exists l. split; [by left|done].
        -- right. split; [done|]. exists l'. split; [by right|done].
      * intros [?|(Hne' & l' & Hl' & Hid)]; [left; set_solver|].
        apply elem_of_cons in Hl' as [[= ->]|Hl'].
        -- left. assert (id = id') as -> by congruence. set_solver.
        -- right. split; [done|]. by exists l'.
  - intros Hrest id. rewrite (IH _ Hrest). split.
    + intros [?|(Hne & l' & Hl' & Hid)]; [by left|].
      right. split; [done|]. exists l'. split; [by right|done].
    + intros [?|(Hne & l' & Hl' & Hid)]; [by left|].
      apply elem_of_cons in Hl' as [[= ->]|Hl']; [congruence|].
      right. split; [done|]. by exists l'.
Qed.

Lemma forEach_add_total ls acc :
  Forall is_Some ls → ∃ ids, forEach_add ls acc = Ok ids.
Proof.
  intros Hall. revert acc. induction Hall as [|listing ls [l ->] _ IH]; intros acc; simpl.
  { by exists acc. }
  destruct (offered_identifier l) as [id|]; simpl; [|apply IH].
  destruct (negb _); apply IH.
Qed.

(** X27: [fetchListedNFTs] never throws and leaves the entries of other
    collections alone.  Either its result is in the cache afterwards, and
    then every later call returns it without invoking the function; or
    the call failed, and then the result is the empty set, nothing was
    cached and the function was invoked once. *)
Theorem fetchListedNFTs_outcomes env collectionSlug st :
  ∃ ids st',
    fetchListedNFTs env collectionSlug st = (Ok ids, st') ∧
    (∀ other, other ≠ collectionSlug →
              LISTED_NFTS_CACHE st' !! other = LISTED_NFTS_CACHE st !! other) ∧
    ((LISTED_NFTS_CACHE st' !! collectionSlug = Some ids ∧
      fetchListedNFTs env collectionSlug st' = (Ok ids, st'))
     ∨
     (ids = ∅ ∧
      LISTED_NFTS_CACHE st' = LISTED_NFTS_CACHE st ∧
      LISTED_NFTS_CACHE st !! collectionSlug = None ∧
      invocations st' = invocations st ++ [collectionSlug])).
Proof.
  unfold fetchListedNFTs.
  destruct (LISTED_NFTS_CACHE st !! collectionSlug) as [cached|] eqn:Hc.
  { exists cached, st. split; [done|]. split; [done|]. left. by rewrite Hc. }
  unfold try_catch, bind, functions_invoke, lift, ret, cache_set. simpl.
  destruct (invoke env (length (invocations st)) collectionSlug) as [r|e]; simpl.
  2:{ eexists _, _. split; [done|]. split; [done|]. by right. }
  destruct (error r) as [e|]; simpl.
  { eexists _, _. split; [done|]. split; [done|]. by right. }
  destruct (forEach_add _ ∅) as [ids|e]; simpl.
  2:{ eexists _, _. split; [done|]. split; [done|]. by right. }
  eexists _, _. split; [done|]. simpl. split.
  { intros other Hother. by rewrite lookup_insert_ne. }
  left. by rewrite lookup_insert_eq.
Qed.

(** X28: on a miss, when the function answers without error and no
    entry of its listings is null, the result is cached and holds exactly
    the non-empty token ids the listings offer. *)
Theorem fetchListedNFTs_success env collectionSlug st r :
  LISTED_NFTS_CACHE st !! collectionSlug = None →
  invoke env (length (invocations st)) collectionSlug = Ok r →
  error r = None →
  Forall is_Some (default [] (data r ≫= listings)) →
  ∃ ids st',
    fetchListedNFTs env collectionSlug st = (Ok ids, st') ∧
    LISTED_NFTS_CACHE st' !! collectionSlug = Some ids ∧
    ∀ id, id ∈ ids ↔
          id ≠ "" ∧ ∃ l, Some l ∈ default [] (data r ≫= listings) ∧
                         offered_identifier l = Some id.
Proof.
  intros Hc Hr He Hall. unfold fetchListedNFTs. rewrite Hc.
  unfold try_catch, bind, functions_invoke, lift, ret, cache_set. simpl.
  rewrite Hr. simpl. rewrite He. simpl.
  destruct (forEach_add_total _ ∅ Hall) as [ids Hids]. rewrite Hids. simpl.
  eexists _, _. split; [done|]. simpl. split; [apply lookup_insert_eq|].
  intros id. rewrite (forEach_add_ok _ _ _ Hids id). set_solver.
Qed.

Definition nothing_cached : State :=
  {| LISTED_NFTS_CACHE := ∅; invocations := [] |}.

Definition env_listed : Env :=
  {| invoke := λ _ _,
       Ok {| data := Some {| listings :=
                               Some [Some (ApiMoreFacts.offering "12" "0xseed");
                                     Some (ApiMoreFacts.offering "" "0xseed")] |};
             error := None |} |}.

Lemma fetchListedNFTs_success_witness :
  ∃ ids st',
    fetchListedNFTs env_listed "mythicseed" nothing_cached = (Ok ids, st') ∧
    LISTED_NFTS_CACHE st' !! "mythicseed" = Some ids.
Proof.
  destruct (fetchListedNFTs_success env_listed "mythicseed" nothing_cached _
              eq_refl eq_refl eq_refl)
    as (ids & st' & Hrun & Hcached & _).
  { simpl. repeat constructor; by eexists. }
  exists ids, st'. split; [exact Hrun|exact Hcached].
Defined.

(** A failed call is asked again: the first invocation fails, the second
    one is sent and succeeds. *)
Definition env_retry : Env :=
  {| invoke := λ n slug,
       if (n =? 0)%nat then Throw (JsError "Failed to fetch")
       else invoke env_listed n slug |}.

Example failed_call_is_retried :
  ∃ st1 st2,
    fetchListedNFTs env_retry "mythicseed" nothing_cached = (Ok ∅, st1) ∧
    fetchListedNFTs env_retry "mythicseed" st1 = (Ok {[ "12" ]}, st2) ∧
    invocations st2 = ["mythicseed"; "mythicseed"].
Proof.
  eexists _, _. split; [reflexivity|]. split.
  - unfold fetchListedNFTs, try_catch, bind, functions_invoke, lift, ret, cache_set. simpl.
    rewrite lookup_empty, (right_id_L ∅ (∪)). reflexivity.
  - reflexivity.
Qed.

End PageFacts.
